(** * JSONQuery: a shallow embedding of [jsonquery.py] and its properties

    The development follows the layout of the Python module: the string
    primitives the module borrows from [str], the built-in numeric parsers
    [int] and [float], the value model produced by [json.loads] and by the
    minimal YAML parser, then [YAMLParser], [parse_query_path], [query_data],
    [filter_data], [parse_filter_value], [check_condition], [search_data]
    and [calculate_stats].

    Text is modelled as [string] (one [ascii] per character), so the model
    covers ASCII documents.  Python integers are [Z]; Python floats are
    IEEE-754 binary64 values, [spec_float] at precision 53 and maximal
    exponent 1024. *)

From Stdlib Require Import ZArith List String Ascii Bool Lia.
From Stdlib Require Import DecimalString.
From Stdlib Require DecimalNat DecimalFacts.
From Stdlib Require Import Floats.SpecFloat.
Import ListNotations.

Local Open Scope string_scope.
Local Open Scope list_scope.
Local Open Scope nat_scope.

(** ** Text primitives of [str] *)

Module Str.

(** [str.isspace] on the ASCII range: TAB, LF, VT, FF, CR, the four
    separators FS, GS, RS, US and the space. *)
Definition is_space (c : ascii) : bool :=
  let n := nat_of_ascii c in
  ((9 <=? n) && (n <=? 13)) || ((28 <=? n) && (n <=? 32)).

Fixpoint lstrip (s : string) : string :=
  match s with
  | EmptyString => EmptyString
  | String c s' => if is_space c then lstrip s' else s
  end.

Fixpoint rstrip (s : string) : string :=
  match s with
  | EmptyString => EmptyString
  | String c s' =>
      match rstrip s' with
      | EmptyString => if is_space c then EmptyString else String c EmptyString
      | r => String c r
      end
  end.

Definition strip (s : string) : string := rstrip (lstrip s).

Definition lower_char (c : ascii) : ascii :=
  let n := nat_of_ascii c in
  if (65 <=? n) && (n <=? 90) then ascii_of_nat (n + 32) else c.

Fixpoint lower (s : string) : string :=
  match s with
  | EmptyString => EmptyString
  | String c s' => String (lower_char c) (lower s')
  end.

Fixpoint startswith (p s : string) : bool :=
  match p, s with
  | EmptyString, _ => true
  | String a p', String b s' => Ascii.eqb a b && startswith p' s'
  | String _ _, EmptyString => false
  end.

Fixpoint endswith_char (c : ascii) (s : string) : bool :=
  match s with
  | EmptyString => false
  | String a EmptyString => Ascii.eqb a c
  | String _ s' => endswith_char c s'
  end.

(** [sub in s] *)
Fixpoint contains (sub s : string) : bool :=
  startswith sub s ||
  match s with
  | EmptyString => false
  | String _ s' => contains sub s'
  end.

(** [s[n:]] *)
Fixpoint drop (n : nat) (s : string) : string :=
  match n, s with
  | O, _ => s
  | S n', String _ s' => drop n' s'
  | S _, EmptyString => EmptyString
  end.

(** [s[:-1]] *)
Fixpoint drop_last (s : string) : string :=
  match s with
  | EmptyString => EmptyString
  | String _ EmptyString => EmptyString
  | String c s' => String c (drop_last s')
  end.

(** [s[1:-1]] *)
Definition slice_1_m1 (s : string) : string := drop_last (drop 1 s).

(** [s.split(sep, 1)] when [sep in s]: the text before the first
    occurrence of [sep] and the text after it; [None] when [sep] does not
    occur (Python then returns the one-element list [[s]]). *)
Fixpoint split_once (sep s : string) : option (string * string) :=
  if startswith sep s then Some (EmptyString, drop (String.length sep) s)
  else
    match s with
    | EmptyString => None
    | String c s' =>
        match split_once sep s' with
        | Some (a, b) => Some (String c a, b)
        | None => None
        end
    end.

(** [s.split('\n')] *)
Fixpoint split_lines_aux (cur : string) (s : string) : list string :=
  match s with
  | EmptyString => [cur]
  | String c s' =>
      if Ascii.eqb c "010"%char then cur :: split_lines_aux EmptyString s'
      else split_lines_aux (cur ++ String c EmptyString)%string s'
  end.

Definition split_lines (s : string) : list string :=
  split_lines_aux EmptyString s.

(** [str(i)] for a non-negative index *)
Definition of_nat (n : nat) : string :=
  NilZero.string_of_uint (Nat.to_uint n).

End Str.

(** ** The built-in parsers [int(str)] and [float(str)] *)

Module Num.

Definition prec : Z := 53.
Definition emax : Z := 1024.

Definition is_digit (c : ascii) : bool :=
  let n := nat_of_ascii c in (48 <=? n) && (n <=? 57).

Definition digit_val (c : ascii) : Z := Z.of_nat (nat_of_ascii c - 48).

(** The white space that [int] and [float] skip around a literal in an
    ASCII text: TAB, LF, VT, FF, CR and the space ([Py_ISSPACE]).  The
    separators FS, GS, RS and US, which [str.strip] removes, are not
    skipped. *)
Definition is_c_space (c : ascii) : bool :=
  let n := nat_of_ascii c in
  ((9 <=? n) && (n <=? 13)) || (n =? 32).

Fixpoint c_lstrip (s : string) : string :=
  match s with
  | EmptyString => EmptyString
  | String c s' => if is_c_space c then c_lstrip s' else s
  end.

Fixpoint c_rstrip (s : string) : string :=
  match s with
  | EmptyString => EmptyString
  | String c s' =>
      match c_rstrip s' with
      | EmptyString =>
          if is_c_space c then EmptyString else String c EmptyString
      | r => String c r
      end
  end.

Definition c_strip (s : string) : string := c_rstrip (c_lstrip s).

(** CPython's default limit on the number of digits of a decimal literal
    that [int] converts ([sys.get_int_max_str_digits()]). *)
Definition int_max_str_digits : nat := 4300.

(** The rest of a digit group: digits, each optionally preceded by one
    underscore.  Returns the accumulated value, the number of digits read
    and the unread text. *)
Fixpoint digits_tail (acc : Z) (n : nat) (s : string) : Z * nat * string :=
  match s with
  | EmptyString => (acc, n, s)
  | String c s' =>
      if is_digit c then digits_tail (10 * acc + digit_val c)%Z (S n) s'
      else if Ascii.eqb c "_"%char then
        match s' with
        | String c2 s'' =>
            if is_digit c2
            then digits_tail (10 * acc + digit_val c2)%Z (S n) s''
            else (acc, n, s)
        | EmptyString => (acc, n, s)
        end
      else (acc, n, s)
  end.

Definition read_digits (s : string) : option (Z * nat * string) :=
  match s with
  | String c s' =>
      if is_digit c then Some (digits_tail (digit_val c) 1 s') else None
  | EmptyString => None
  end.

(** An optional sign: [true] for a minus. *)
Definition read_sign (s : string) : bool * string :=
  match s with
  | String c s' =>
      if Ascii.eqb c "-"%char then (true, s')
      else if Ascii.eqb c "+"%char then (false, s')
      else (false, s)
  | EmptyString => (false, s)
  end.

(** [int(s)] in base ten; [None] is [ValueError].  The limit
    [int_max_str_digits] is a run-time setting of the interpreter and is
    not part of this function, which reads a literal of any length:
    a statement about a literal that [int] accepts bounds its length by
    [int_max_str_digits]. *)
Definition py_int (s : string) : option Z :=
  let '(neg, body) := read_sign (c_strip s) in
  match read_digits body with
  | Some (v, _, EmptyString) => Some (if neg then (- v)%Z else v)
  | _ => None
  end.

(** The binary64 value nearest to [m * 10 ^ e10] (ties to even). *)
Definition of_decimal (neg : bool) (m : Z) (e10 : Z) : spec_float :=
  match m with
  | Zpos p =>
      if (0 <=? e10)%Z
      then binary_normalize prec emax
             (if neg then (- (m * 10 ^ e10))%Z else (m * 10 ^ e10)%Z) 0 false
      else SFdiv prec emax (S754_finite neg p 0)
                           (S754_finite false (Z.to_pos (10 ^ (- e10))) 0)
  | _ => S754_zero neg
  end.

(** [float(i)] for an integer [i]; [None] is [OverflowError]. *)
Definition of_int (z : Z) : option spec_float :=
  match binary_normalize prec emax z 0 false with
  | S754_infinity _ => None
  | f => Some f
  end.

(** The optional exponent part [e[+-]digits] and what follows it. *)
Definition read_exponent (s : string) : option (Z * string) :=
  match s with
  | String c s' =>
      if Ascii.eqb (Str.lower_char c) "e"%char then
        let '(neg, body) := read_sign s' in
        match read_digits body with
        | Some (v, _, rest) => Some (if neg then (- v)%Z else v, rest)
        | None => None
        end
      else Some (0%Z, s)
  | EmptyString => Some (0%Z, s)
  end.

(** The decimal literal [digits[.[digits]]] or [.digits]: the mantissa as
    an integer, the number of fractional digits and the unread text. *)
Definition read_mantissa (s : string) : option (Z * nat * string) :=
  match read_digits s with
  | Some (ip, _, String c rest) =>
      if Ascii.eqb c "."%char then
        match read_digits rest with
        | Some (fp, fn, rest') =>
            Some ((ip * 10 ^ Z.of_nat fn + fp)%Z, fn, rest')
        | None => Some (ip, O, rest)
        end
      else Some (ip, O, String c rest)
  | Some (ip, _, EmptyString) => Some (ip, O, EmptyString)
  | None =>
      match s with
      | String c rest =>
          if Ascii.eqb c "."%char then
            match read_digits rest with
            | Some (fp, fn, rest') => Some (fp, fn, rest')
            | None => None
            end
          else None
      | EmptyString => None
      end
  end.

(** [float(s)]; [None] is [ValueError]. *)
Definition py_float (s : string) : option spec_float :=
  let '(neg, body) := read_sign (c_strip s) in
  let word := Str.lower body in
  if String.eqb word "inf" || String.eqb word "infinity"
  then Some (S754_infinity neg)
  else if String.eqb word "nan" then Some S754_nan
  else
    match read_mantissa body with
    | Some (m, fn, rest) =>
        match read_exponent rest with
        | Some (e, EmptyString) =>
            Some (of_decimal neg m (e - Z.of_nat fn))
        | _ => None
        end
    | None => None
    end.

End Num.

(** ** Values

    What [json.loads] and [YAMLParser.parse] produce: [None], [bool], [int],
    [float], [str], [list] and [dict].  A [dict] has string keys and keeps
    its insertion order, so it is an association list (first binding of a
    key is the binding). *)

#[local] Unset Elimination Schemes.
Inductive Value : Type :=
| VNone
| VBool (b : bool)
| VInt (z : Z)
| VFloat (f : spec_float)
| VStr (s : string)
| VList (l : list Value)
| VDict (d : list (string * Value)).
#[local] Set Elimination Schemes.

Definition dict : Type := list (string * Value).

Module Dict.

(** [d[key]] when [key in d], [None] when [key] is not in [d] *)
Fixpoint lookup (key : string) (d : dict) : option Value :=
  match d with
  | [] => None
  | (k, v) :: d' => if String.eqb k key then Some v else lookup key d'
  end.

(** [d[key] = v]: an existing key keeps its place, a new one goes last. *)
Fixpoint set (key : string) (v : Value) (d : dict) : dict :=
  match d with
  | [] => [(key, v)]
  | (k, w) :: d' =>
      if String.eqb k key then (k, v) :: d' else (k, w) :: set key v d'
  end.

End Dict.

(** Exceptions that escape the functions of the module.  [ReError] is the
    exception that a call of [re.search] raised: [re.error] for a pattern
    that does not compile, and also the [OverflowError] or
    [RecursionError] that the [re] module raises on some patterns; the
    module never tells them apart.  [OverflowError] is the one of float
    arithmetic on an integer that is too large. *)
Inductive exn : Type := ReError | OverflowError.

Inductive result (A : Type) : Type :=
| Ok (a : A)
| Raise (e : exn).
Arguments Ok {A} a.
Arguments Raise {A} e.

Definition bind {A B : Type} (m : result A) (k : A -> result B) : result B :=
  match m with
  | Ok a => k a
  | Raise e => Raise e
  end.

Notation "x <- m ;; k" := (bind m (fun x => k))
  (at level 61, m at next level, right associativity).

(** A list comprehension with a predicate that may raise. *)
Fixpoint filterM {A : Type} (p : A -> result bool) (l : list A)
  : result (list A) :=
  match l with
  | [] => Ok []
  | x :: l' =>
      b <- p x ;;
      r <- filterM p l' ;;
      Ok (if b then x :: r else r)
  end.

(** ** Comparison of values, as [==], [!=], [<], [>], [<=], [>=] do it *)

Module Cmp.

Inductive num : Type := NInt (z : Z) | NFloat (f : spec_float).

(** The numeric tower: [bool] is a subclass of [int]. *)
Definition as_num (v : Value) : option num :=
  match v with
  | VBool b => Some (NInt (if b then 1 else 0)%Z)
  | VInt z => Some (NInt z)
  | VFloat f => Some (NFloat f)
  | _ => None
  end.

(** An integer against a float, compared exactly; [None] for a NaN. *)
Definition Z_float_compare (z : Z) (f : spec_float) : option comparison :=
  match f with
  | S754_nan => None
  | S754_infinity false => Some Lt
  | S754_infinity true => Some Gt
  | S754_zero _ => Some (z ?= 0)%Z
  | S754_finite s m e =>
      let v := (if s then Zneg m else Zpos m) in
      if (0 <=? e)%Z then Some (z ?= v * 2 ^ e)%Z
      else Some (z * 2 ^ (- e) ?= v)%Z
  end.

Definition num_compare (a b : num) : option comparison :=
  match a, b with
  | NInt x, NInt y => Some (x ?= y)%Z
  | NFloat x, NFloat y => SFcompare x y
  | NInt x, NFloat y => Z_float_compare x y
  | NFloat x, NInt y => option_map CompOpp (Z_float_compare y x)
  end.

(** [a == b].  (CPython's container comparison first tests the two
    elements for object identity; identity is not part of the value
    model, so a NaN inside a list compares as a NaN does.) *)
Fixpoint py_eq (a b : Value) {struct a} : bool :=
  match a, b with
  | VNone, VNone => true
  | VStr s, VStr t => String.eqb s t
  | VList l1, VList l2 =>
      (fix all2 (l1 l2 : list Value) {struct l1} : bool :=
         match l1, l2 with
         | [], [] => true
         | x :: l1', y :: l2' => py_eq x y && all2 l1' l2'
         | _, _ => false
         end) l1 l2
  | VDict d1, VDict d2 =>
      Nat.eqb (List.length d1) (List.length d2) &&
      (fix all_in (d : dict) : bool :=
         match d with
         | [] => true
         | (k, v) :: d' =>
             match Dict.lookup k d2 with
             | Some w => py_eq v w && all_in d'
             | None => false
             end
         end) d1
  | _, _ =>
      match as_num a, as_num b with
      | Some x, Some y =>
          match num_compare x y with Some Eq => true | _ => false end
      | _, _ => false
      end
  end.

Inductive ord_op : Type := OLt | OGt | OLe | OGe.

Definition ord_test (op : ord_op) (c : option comparison) : bool :=
  match op, c with
  | OLt, Some Lt => true
  | OGt, Some Gt => true
  | OLe, Some (Lt | Eq) => true
  | OGe, Some (Gt | Eq) => true
  | _, _ => false
  end.

(** [a op b] for an ordering operator; [None] is [TypeError]. *)
Fixpoint py_ord (op : ord_op) (a b : Value) {struct a} : option bool :=
  match a, b with
  | VStr s, VStr t => Some (ord_test op (Some (String.compare s t)))
  | VList l1, VList l2 =>
      (fix lex (l1 l2 : list Value) {struct l1} : option bool :=
         match l1, l2 with
         | x :: l1', y :: l2' =>
             if py_eq x y then lex l1' l2' else py_ord op x y
         | [], [] => Some (ord_test op (Some Eq))
         | [], _ :: _ => Some (ord_test op (Some Lt))
         | _ :: _, [] => Some (ord_test op (Some Gt))
         end) l1 l2
  | _, _ =>
      match as_num a, as_num b with
      | Some x, Some y => Some (ord_test op (num_compare x y))
      | _, _ => None
      end
  end.

End Cmp.

(** ** [parse_query_path] *)

(** A path component is a [str] or an [int]; the wildcard is the string
    ["*"]. *)
Inductive component : Type :=
| CStr (s : string)
| CInt (n : Z).

(** [components.append(current)] when [current] is not empty *)
Definition flush (components : list component) (current : string)
  : list component :=
  match current with
  | EmptyString => components
  | _ => components ++ [CStr current]
  end.

(** The component a bracket group [[index_str]] stands for. *)
Definition bracket_component (index_str : string) : component :=
  if String.eqb index_str "*" then CStr "*"
  else match Num.py_int index_str with
       | Some n => CInt n
       | None => CStr index_str
       end.

(** The scan of [parse_query_path] from position [i]: [path] is the text
    from [i] on.  The inner loop that looks for the closing bracket is the
    inner [fix]; a group that is never closed reads to the end of the
    text. *)
Fixpoint parse_query_path_from (path : string) (components : list component)
  (current : string) {struct path} : list component :=
  match path with
  | EmptyString => flush components current
  | String char rest =>
      if Ascii.eqb char "."%char then
        parse_query_path_from rest (flush components current) EmptyString
      else if Ascii.eqb char "["%char then
        let components := flush components current in
        (fix find_close (s : string) (index_str : string) {struct s}
           : list component :=
           match s with
           | EmptyString =>
               flush (components ++ [bracket_component index_str]) EmptyString
           | String c s' =>
               if Ascii.eqb c "]"%char
               then parse_query_path_from s'
                      (components ++ [bracket_component index_str]) EmptyString
               else find_close s' (index_str ++ String c EmptyString)%string
           end) rest EmptyString
      else
        parse_query_path_from rest components
          (current ++ String char EmptyString)%string
  end.

Definition parse_query_path (path : string) : list component :=
  parse_query_path_from path [] EmptyString.

(** ** [query_data] *)

(** [component == '*'] *)
Definition is_star (c : component) : bool :=
  match c with
  | CStr s => String.eqb s "*"
  | CInt _ => false
  end.

(** [result is not None] *)
Definition is_not_none (v : Value) : bool :=
  match v with VNone => false | _ => true end.

(** [results if results else None] *)
Definition results_or_none (results : list Value) : Value :=
  match results with
  | [] => VNone
  | _ => VList results
  end.

(** [data[component]] on a list; [None] is [IndexError].  A negative index
    counts from the end, as Python's list indexing does. *)
Definition list_index (data : list Value) (n : Z) : option Value :=
  let len := Z.of_nat (List.length data) in
  if (0 <=? n)%Z then nth_error data (Z.to_nat n)
  else if (- len <=? n)%Z then nth_error data (Z.to_nat (len + n))
  else None.

Fixpoint query_data (data : Value) (path : list component) {struct path}
  : Value :=
  match path with
  | [] => data
  | component :: remaining =>
      if is_star component then
        match data with
        | VList l =>
            results_or_none
              (filter is_not_none
                 (map (fun item => query_data item remaining) l))
        | _ => VNone
        end
      else
        match data with
        | VDict d =>
            match component with
            | CStr key =>
                match Dict.lookup key d with
                | Some v => query_data v remaining
                | None => VNone
                end
            | CInt _ => VNone
            end
        | VList l =>
            match component with
            | CInt n =>
                match list_index l n with
                | Some v => query_data v remaining
                | None => VNone
                end
            | CStr key =>
                results_or_none
                  (filter is_not_none
                     (flat_map
                        (fun item =>
                           match item with
                           | VDict d =>
                               match Dict.lookup key d with
                               | Some v => [query_data v remaining]
                               | None => []
                               end
                           | _ => []
                           end) l))
            end
        | _ => VNone
        end
  end.

(** ** Scalars: [YAMLParser._parse_value] and [parse_filter_value] *)

Definition dquote : ascii := "034"%char.
Definition squote : ascii := "'"%char.

(** [value.startswith(q) and value.endswith(q)] for a one-character [q] *)
Definition wrapped_in (q : ascii) (value : string) : bool :=
  Str.startswith (String q EmptyString) value && Str.endswith_char q value.

Definition is_quoted (value : string) : bool :=
  wrapped_in dquote value || wrapped_in squote value.

(** [x in words] *)
Definition in_words (x : string) (words : list string) : bool :=
  existsb (String.eqb x) words.

(** The [try] block shared by the two scalar parsers: [float(value)] when
    the text has a dot, [int(value)] otherwise; [None] is the [ValueError]
    that the [except] clause passes over. *)
Definition parse_number (value : string) : option Value :=
  if Str.contains "." value
  then option_map VFloat (Num.py_float value)
  else option_map VInt (Num.py_int value).

Definition _parse_value (value : string) : Value :=
  let value := Str.strip value in
  if in_words (Str.lower value) ["true"; "yes"; "on"] then VBool true
  else if in_words (Str.lower value) ["false"; "no"; "off"] then VBool false
  else if in_words (Str.lower value) ["null"; "none"; "~"] then VNone
  else
    match parse_number value with
    | Some v => v
    | None =>
        if is_quoted value then VStr (Str.slice_1_m1 value) else VStr value
    end.

Definition parse_filter_value (value : string) : Value :=
  let value := Str.strip value in
  if is_quoted value then VStr (Str.slice_1_m1 value)
  else if String.eqb (Str.lower value) "true" then VBool true
  else if String.eqb (Str.lower value) "false" then VBool false
  else if in_words (Str.lower value) ["null"; "none"] then VNone
  else
    match parse_number value with
    | Some v => v
    | None => VStr value
    end.

(** ** [YAMLParser._parse_lines] *)

Module YAMLParser.

(** The local variables of [_parse_lines]. *)
Record locals : Type := mkLocals {
  result : dict;
  current_list : list Value;
  current_key : option string;
  i : nat;
  in_list : bool
}.

Definition initial : locals := mkLocals [] [] None 0 false.

Definition next (st : locals) : locals :=
  mkLocals (result st) (current_list st) (current_key st) (S (i st))
           (in_list st).

(** [not line.strip() or line.strip().startswith('#')] *)
Definition is_skipped (line : string) : bool :=
  match Str.strip line with
  | EmptyString => true
  | s => Str.startswith "#" s
  end.

(** [len(line) - len(line.lstrip())] *)
Definition indent_of (line : string) : nat :=
  String.length line - String.length (Str.lstrip line).

(** The truth value of [current_key]: set and not empty. *)
Definition pending_key (st : locals) : option string :=
  match current_key st with
  | Some EmptyString => None
  | k => k
  end.

(** The value a list item line contributes. *)
Definition list_item (stripped : string) : Value :=
  let value := Str.strip (Str.drop 2 stripped) in
  match Str.split_once ": " value with
  | Some (key, val) => VDict [(key, _parse_value val)]
  | None => _parse_value value
  end.

(** The two [return] statements that end [_parse_lines]. *)
Definition finish (st : locals) : Value * nat :=
  if in_list st then (VList (current_list st), i st)
  else (match result st with [] => VNone | r => VDict r end, i st).

(** The [while] loop of [_parse_lines]; every iteration and every nested
    call takes one unit of [fuel], and [None] is an exhausted [fuel]. *)
Fixpoint parse_loop (fuel : nat) (lines : list string) (start_indent : nat)
  (st : locals) {struct fuel} : option locals :=
  match fuel with
  | O => None
  | S fuel' =>
      match nth_error lines (i st) with
      | None => Some st
      | Some line =>
          if is_skipped line then parse_loop fuel' lines start_indent (next st)
          else
            let indent := indent_of line in
            if indent <? start_indent then Some st
            else if start_indent <? indent then
              match pending_key st with
              | Some key =>
                  match parse_loop fuel' (skipn (i st) lines) indent initial
                  with
                  | Some nested =>
                      let '(nested_result, lines_consumed) := finish nested in
                      parse_loop fuel' lines start_indent
                        (mkLocals (Dict.set key nested_result (result st))
                                  (current_list st) None
                                  (i st + lines_consumed) (in_list st))
                  | None => None
                  end
              | None => parse_loop fuel' lines start_indent (next st)
              end
            else
              let stripped := Str.strip line in
              if Str.startswith "- " stripped then
                parse_loop fuel' lines start_indent
                  (mkLocals (result st)
                            (current_list st ++ [list_item stripped])
                            (current_key st) (S (i st)) true)
              else
                match Str.split_once ": " stripped with
                | Some (key, value) =>
                    let key := Str.strip key in
                    let value := Str.strip value in
                    match value with
                    | EmptyString =>
                        parse_loop fuel' lines start_indent
                          (mkLocals (result st) (current_list st) (Some key)
                                    (S (i st)) (in_list st))
                    | _ =>
                        parse_loop fuel' lines start_indent
                          (mkLocals
                             (Dict.set key (_parse_value value) (result st))
                             (current_list st) (current_key st)
                             (S (i st)) (in_list st))
                    end
                | None => parse_loop fuel' lines start_indent (next st)
                end
      end
  end.

(** Enough fuel for a block of [n] lines (see [parse_loop_total]). *)
Definition fuel_for (lines : list string) : nat :=
  2 * List.length lines + 1.

Definition _parse_lines (lines : list string) (start_indent : nat)
  : option (Value * nat) :=
  option_map finish (parse_loop (fuel_for lines) lines start_indent initial).

Definition parse (text : string) : option Value :=
  option_map fst (_parse_lines (Str.split_lines (Str.strip text)) 0).

End YAMLParser.

(** ** Filters, search and statistics *)

Section WithRegex.

(** [re.search(pattern, subject, flags) is not None], the one service of
    the [re] module that is used: [ignorecase] is [flags == re.IGNORECASE],
    and [None] is a call that raises, whatever the exception ([re.error]
    for a pattern that does not compile, [OverflowError] or
    [RecursionError] on some patterns). *)
Variable re_search : forall (pattern subject : string) (ignorecase : bool),
    option bool.

(** A [TypeError] raised by an ordering is caught and gives [False]. *)
Definition ordered (op : Cmp.ord_op) (item_value filter_value : Value)
  : result bool :=
  match Cmp.py_ord op item_value filter_value with
  | Some b => Ok b
  | None => Ok false
  end.

Definition check_condition (item_value : Value) (operator : string)
  (filter_value : Value) : result bool :=
  if String.eqb operator "==" then Ok (Cmp.py_eq item_value filter_value)
  else if String.eqb operator "!=" then
    Ok (negb (Cmp.py_eq item_value filter_value))
  else if String.eqb operator ">" then ordered Cmp.OGt item_value filter_value
  else if String.eqb operator "<" then ordered Cmp.OLt item_value filter_value
  else if String.eqb operator ">=" then
    ordered Cmp.OGe item_value filter_value
  else if String.eqb operator "<=" then
    ordered Cmp.OLe item_value filter_value
  else if String.eqb operator "~" then
    match item_value, filter_value with
    | VStr subject, VStr pattern =>
        match re_search pattern subject false with
        | Some b => Ok b
        | None => Raise ReError
        end
    | _, _ => Ok false
    end
  else Ok false.

Definition operators : list string :=
  ["=="; "!="; ">="; "<="; ">"; "<"; "~"].

(** The [for op in operators] loop of [filter_data]: the first operator
    of the list that occurs in the expression, with the stripped text on
    its two sides. *)
Fixpoint find_operator (ops : list string) (filter_expr : string)
  : option (string * string * string) :=
  match ops with
  | [] => None
  | op :: ops' =>
      match Str.split_once op filter_expr with
      | Some (key, value) => Some (op, Str.strip key, Str.strip value)
      | None => find_operator ops' filter_expr
      end
  end.

(** The test applied to one element of a list in [filter_data]. *)
Definition keeps (key operator : string) (parsed_value : Value)
  (item : Value) : result bool :=
  match item with
  | VDict d =>
      match Dict.lookup key d with
      | Some item_value => check_condition item_value operator parsed_value
      | None => Ok false
      end
  | _ => Ok false
  end.

Definition filter_data (data : Value) (filter_expr : string)
  : result Value :=
  match filter_expr with
  | EmptyString => Ok data
  | _ =>
      match find_operator operators filter_expr with
      | None => Ok data
      | Some (operator, key, value) =>
          let parsed_value := parse_filter_value value in
          match data with
          | VList l =>
              filtered <- filterM (keeps key operator parsed_value) l ;;
              Ok (VList filtered)
          | VDict d =>
              match Dict.lookup key d with
              | Some item_value =>
                  b <- check_condition item_value operator parsed_value ;;
                  Ok (if b then data else VNone)
              | None => Ok VNone
              end
          | _ => Ok VNone
          end
      end
  end.

(** [search_recursive], with the shared [results] list returned as the
    list of pairs appended during the call. *)
Fixpoint search_recursive (pattern : string) (ignorecase : bool)
  (obj : Value) (path : string) {struct obj}
  : result (list (string * string)) :=
  match obj with
  | VDict d =>
      (fix items (d : dict) : result (list (string * string)) :=
         match d with
         | [] => Ok []
         | (key, value) :: d' =>
             let new_path :=
               match path with
               | EmptyString => key
               | _ => (path ++ "." ++ key)%string
               end in
             r <- search_recursive pattern ignorecase value new_path ;;
             rs <- items d' ;;
             Ok (r ++ rs)
         end) d
  | VList l =>
      (fix enumerate (i : nat) (l : list Value)
         : result (list (string * string)) :=
         match l with
         | [] => Ok []
         | item :: l' =>
             let new_path := (path ++ "[" ++ Str.of_nat i ++ "]")%string in
             r <- search_recursive pattern ignorecase item new_path ;;
             rs <- enumerate (S i) l' ;;
             Ok (r ++ rs)
         end) 0 l
  | VStr s =>
      match re_search pattern s ignorecase with
      | Some true => Ok [(path, s)]
      | Some false => Ok []
      | None => Raise ReError
      end
  | _ => Ok []
  end.

Definition search_data (data : Value) (pattern : string)
  (case_sensitive : bool) : result (list (string * string)) :=
  search_recursive pattern (negb case_sensitive) data EmptyString.

End WithRegex.

(** ** [calculate_stats] *)

(** [isinstance(obj, (int, float))]; a [bool] is an [int]. *)
Definition is_int_or_float (obj : Value) : bool :=
  match obj with
  | VBool _ | VInt _ | VFloat _ => true
  | _ => false
  end.

(** The closure [collect_numbers], with the shared [numbers] list returned
    as the list of values appended during the call. *)
Fixpoint collect_numbers (obj : Value) : list Value :=
  match obj with
  | VList l =>
      (fix each (l : list Value) : list Value :=
         match l with
         | [] => []
         | item :: l' => collect_numbers item ++ each l'
         end) l
  | VDict d =>
      (fix values (d : dict) : list Value :=
         match d with
         | [] => []
         | (_, value) :: d' => collect_numbers value ++ values d'
         end) d
  | _ => if is_int_or_float obj then [obj] else []
  end.

Module Stats.

(** [float(x)] for a number. *)
Definition to_float (x : Cmp.num) : result spec_float :=
  match x with
  | Cmp.NFloat f => Ok f
  | Cmp.NInt z =>
      match Num.of_int z with
      | Some f => Ok f
      | None => Raise OverflowError
      end
  end.

Definition of_num (x : Cmp.num) : Value :=
  match x with
  | Cmp.NInt z => VInt z
  | Cmp.NFloat f => VFloat f
  end.

(** [a + b] on numbers *)
Definition add (a b : Cmp.num) : result Cmp.num :=
  match a, b with
  | Cmp.NInt x, Cmp.NInt y => Ok (Cmp.NInt (x + y))
  | _, _ =>
      x <- to_float a ;;
      y <- to_float b ;;
      Ok (Cmp.NFloat (SFadd Num.prec Num.emax x y))
  end.

(** [sum(numbers)]: the left-to-right sum from the integer [0].  (From
    3.12 on CPython adds floats with a compensated sum; the two agree
    whenever no partial sum is rounded.) *)
Fixpoint sum_from (acc : Cmp.num) (numbers : list Value)
  : result Cmp.num :=
  match numbers with
  | [] => Ok acc
  | v :: rest =>
      match Cmp.as_num v with
      | Some x => acc' <- add acc x ;; sum_from acc' rest
      | None => Ok acc
      end
  end.

Definition sum (numbers : list Value) : result Cmp.num :=
  sum_from (Cmp.NInt 0) numbers.

(** [total / n], true division by a positive count *)
Definition truediv (total : Cmp.num) (n : nat) : result spec_float :=
  match total with
  | Cmp.NInt (Zpos p) =>
      match SFdiv Num.prec Num.emax (S754_finite false p 0)
              (S754_finite false (Pos.of_nat n) 0) with
      | S754_infinity _ => Raise OverflowError
      | q => Ok q
      end
  | Cmp.NInt (Zneg p) =>
      match SFdiv Num.prec Num.emax (S754_finite true p 0)
              (S754_finite false (Pos.of_nat n) 0) with
      | S754_infinity _ => Raise OverflowError
      | q => Ok q
      end
  | Cmp.NInt Z0 => Ok (S754_zero false)
  | Cmp.NFloat f =>
      d <- to_float (Cmp.NInt (Z.of_nat n)) ;;
      Ok (SFdiv Num.prec Num.emax f d)
  end.

(** [min(numbers)] and [max(numbers)]: the first element that no later
    one is strictly below (above). *)
Fixpoint extreme (op : Cmp.ord_op) (best : Value) (numbers : list Value)
  : Value :=
  match numbers with
  | [] => best
  | v :: rest =>
      match Cmp.py_ord op v best with
      | Some true => extreme op v rest
      | _ => extreme op best rest
      end
  end.

Definition calculate_stats (data : Value) : result Value :=
  let numbers := collect_numbers data in
  match numbers with
  | [] => Ok (VDict [("error", VStr "No numeric values found")])
  | first :: rest =>
      total <- sum numbers ;;
      avg <- truediv total (List.length numbers) ;;
      Ok (VDict [("count", VInt (Z.of_nat (List.length numbers)));
                 ("sum", of_num total);
                 ("avg", VFloat avg);
                 ("min", extreme Cmp.OLt first rest);
                 ("max", extreme Cmp.OGt first rest)])
  end.

End Stats.

(** ** [format_output] and [main] *)

(** The ANSI colour codes of [Colors] that [main] uses. *)
Module Colors.
End Colors.

(** [sep.join(parts)] *)
Fixpoint join (sep : string) (parts : list string) : string :=
  match parts with
  | [] => EmptyString
  | [x] => x
  | x :: rest => (x ++ sep ++ join sep rest)%string
  end.



(** What [format_output] gives: a text, or the [AttributeError] of
    [item.get] on an item that is not a dict. *)
Inductive formatted : Type :=
| Text (s : string)
| AttributeError.

(** What reading the input gives. *)
Inductive read_outcome : Type :=
| Read (content : string)
| FileNotFoundError
| ReadError (message : string).

(** What [json.loads] gives: a value, a [JSONDecodeError] or another
    exception, each with its message. *)
Inductive json_outcome : Type :=
| Loaded (data : Value)
| JSONDecodeError (message : string)
| LoadError (message : string).







Section WithRuntime.

(** The services of the Python runtime that the two functions call:
    [re.search] as before, [json.dumps(data, indent=..., ensure_ascii=...)],
    [str(value)], [json.loads], the text [str(e)] of an exception, the text
    of the [AttributeError], and the two ways to read the input.  (The
    command line goes through [argparse]; what it gives is the argument of
    [main].) *)
Variable re_search : string -> string -> bool -> option bool.
Variable json_dumps : Value -> option nat -> bool -> string.
Variable py_str : Value -> string.
Variable json_loads : string -> json_outcome.
Variable exn_text : exn -> string.
Variable attribute_error_text : string.
Variable stdin_read : read_outcome.
Variable open_read : string -> read_outcome.

(** [isinstance(data, list) and data and isinstance(data[0], dict)]: the
    keys of the first element. *)
Definition first_dict (data : Value) : option dict :=
  match data with
  | VList (VDict d :: _) => Some d
  | _ => None
  end.

(** [[str(item.get(h, '')) for h in headers]]; [None] is the
    [AttributeError] of [item.get] on an [item] that is not a dict, which
    needs a header for the call to be made. *)
Definition csv_row (headers : list string) (item : Value)
  : option (list string) :=
  match item with
  | VDict d =>
      Some (map (fun h => py_str match Dict.lookup h d with
                                 | Some v => v
                                 | None => VStr EmptyString
                                 end) headers)
  | _ =>
      match headers with
      | [] => Some []
      | _ :: _ => None
      end
  end.

(** The rows of the CSV output; [None] when one of them raises. *)
Fixpoint csv_rows (headers : list string) (items : list Value)
  : option (list (list string)) :=
  match items with
  | [] => Some []
  | item :: rest =>
      match csv_row headers item with
      | Some row =>
          match csv_rows headers rest with
          | Some rows => Some (row :: rows)
          | None => None
          end
      | None => None
      end
  end.

Definition format_output (data : Value) (format : string) (pretty : bool)
  : formatted :=
  match data with
  | VNone => Text "null"
  | _ =>
      if String.eqb format "json" then
        Text (json_dumps data (if pretty then Some 2 else None) false)
      else if String.eqb format "csv" then
        match data, first_dict data with
        | VList items, Some d =>
            let headers := map fst d in
            match csv_rows headers items with
            | Some rows =>
                Text (join (String "010"%char EmptyString)
                        (join "," headers :: map (join ",") rows))
            | None => AttributeError
            end
        | _, _ => Text (json_dumps data None true)
        end
      else if String.eqb format "keys" then
        match data with
        | VDict d => Text (join (String "010"%char EmptyString) (map fst d))
        | VList (VDict d :: _) =>
            Text (join (String "010"%char EmptyString) (map fst d))
        | _ => Text "Not a dictionary"
        end
      else if String.eqb format "values" then
        match data with
        | VDict d =>
            Text (join (String "010"%char EmptyString)
                    (map (fun kv => py_str (snd kv)) d))
        | VList l =>
            Text (join (String "010"%char EmptyString) (map py_str l))
        | _ => Text (py_str data)
        end
      else if String.eqb format "plain" then
        match data with
        | VList _ | VDict _ => Text (json_dumps data (Some 2) false)
        | _ => Text (py_str data)
        end
      else Text (py_str data)
  end.










End WithRuntime.

(** ** Vocabulary of the statements *)

(** The kind of a value, as the data model names it: integers and floats
    are both numbers, a boolean is a kind of its own. *)
Inductive kind : Type :=
| KNull | KBool | KNumber | KString | KSequence | KMapping.

Definition kind_of (v : Value) : kind :=
  match v with
  | VNone => KNull
  | VBool _ => KBool
  | VInt _ | VFloat _ => KNumber
  | VStr _ => KString
  | VList _ => KSequence
  | VDict _ => KMapping
  end.

(** A boolean on one side and a number on the other. *)
Definition bool_with_number (a b : Value) : bool :=
  match kind_of a, kind_of b with
  | KBool, KNumber | KNumber, KBool => true
  | _, _ => false
  end.

(** The words that [_parse_value] reads as a boolean or as null. *)
Definition yaml_words : list string :=
  ["true"; "yes"; "on"; "false"; "no"; "off"; "null"; "none"; "~"].

(** The pairs [search_data] reports for a list of matching strings found
    under [path], the first one at index [i]. *)
Fixpoint indexed_from (path : string) (i : nat) (l : list string)
  : list (string * string) :=
  match l with
  | [] => []
  | s :: l' =>
      ((path ++ "[" ++ Str.of_nat i ++ "]")%string, s)
        :: indexed_from path (S i) l'
  end.

(** The [for i, item in enumerate(obj)] loop of [search_recursive], from
    index [i]. *)
Fixpoint search_enumerate
  (re_search : string -> string -> bool -> option bool)
  (pattern : string) (ignorecase : bool) (path : string) (i : nat)
  (l : list Value) : result (list (string * string)) :=
  match l with
  | [] => Ok []
  | item :: l' =>
      r <- search_recursive re_search pattern ignorecase item
             (path ++ "[" ++ Str.of_nat i ++ "]")%string ;;
      rs <- search_enumerate re_search pattern ignorecase path (S i) l' ;;
      Ok (r ++ rs)
  end.

(** A regular-expression engine for patterns without metacharacters, where
    [re.search] is a substring test; it instantiates [re_search] in the
    examples. *)
Definition literal_search (pattern subject : string) (ignorecase : bool)
  : option bool :=
  if ignorecase
  then Some (Str.contains (Str.lower pattern) (Str.lower subject))
  else Some (Str.contains pattern subject).

(** The line that [_parse_lines] is about to read is a sequence item of the
    block: it is not skipped, it sits at the indentation of the block and
    its text starts with ["- "]. *)
Definition reads_item (lines : list string) (start_indent : nat)
  (st : YAMLParser.locals) : bool :=
  match nth_error lines (YAMLParser.i st) with
  | Some line =>
      negb (YAMLParser.is_skipped line) &&
      (YAMLParser.indent_of line =? start_indent) &&
      Str.startswith "- " (Str.strip line)
  | None => false
  end.

(** [isinstance(v, list)] *)
Definition is_list (v : Value) : bool :=
  match v with VList _ => true | _ => false end.

(** Neither a list nor a dict. *)
Definition is_scalar (v : Value) : bool :=
  match v with VList _ | VDict _ => false | _ => true end.

(** An element of a list passes the test of [filter_data]: the test
    returns [True] (and does not raise). *)
Definition passes (re_search : string -> string -> bool -> option bool)
  (key operator : string) (parsed_value : Value) (item : Value) : bool :=
  match keeps re_search key operator parsed_value item with
  | Ok true => true
  | _ => false
  end.

(** Every character of the text satisfies [p]. *)
Fixpoint all_chars (p : ascii -> bool) (s : string) : bool :=
  match s with
  | EmptyString => true
  | String c s' => p c && all_chars p s'
  end.

Definition not_space (c : ascii) : bool := negb (Str.is_space c).

(** A character that [parse_query_path] accumulates into the current
    name: neither a dot nor an opening bracket. *)
Definition name_char (c : ascii) : bool :=
  negb (Ascii.eqb c "."%char) && negb (Ascii.eqb c "["%char).

Definition not_close (c : ascii) : bool := negb (Ascii.eqb c "]"%char).

(** The inner loop of [parse_query_path], which looks for the closing
    bracket, as a function of its own: [s] is the text after the opening
    bracket that is still to be read, [index_str] the content read so
    far. *)
Fixpoint find_close_from (components : list component) (s : string)
  (index_str : string) {struct s} : list component :=
  match s with
  | EmptyString =>
      flush (components ++ [bracket_component index_str]) EmptyString
  | String c s' =>
      if Ascii.eqb c "]"%char
      then parse_query_path_from s'
             (components ++ [bracket_component index_str]) EmptyString
      else find_close_from components s'
             (index_str ++ String c EmptyString)%string
  end.

(** The [for key, value in obj.items()] loop of [search_recursive]. *)
Fixpoint search_items
  (re_search : string -> string -> bool -> option bool)
  (pattern : string) (ignorecase : bool) (path : string) (d : dict)
  : result (list (string * string)) :=
  match d with
  | [] => Ok []
  | (key, value) :: d' =>
      r <- search_recursive re_search pattern ignorecase value
             match path with
             | EmptyString => key
             | _ => (path ++ "." ++ key)%string
             end ;;
      rs <- search_items re_search pattern ignorecase path d' ;;
      Ok (r ++ rs)
  end.

(** A key that a path expression can name: not empty, without a dot or an
    opening bracket, and not the wildcard. *)
Definition plain_key (key : string) : bool :=
  negb (String.eqb key "") && all_chars name_char key &&
  negb (String.eqb key "*").

(** No key is bound twice, as in every Python [dict]. *)
Fixpoint distinct_keys (d : dict) : bool :=
  match d with
  | [] => true
  | (k, _) :: d' =>
      match Dict.lookup k d' with
      | None => distinct_keys d'
      | Some _ => false
      end
  end.

(** Every mapping of the document has distinct, plain keys. *)
Fixpoint plain_keys (v : Value) : bool :=
  match v with
  | VList l => forallb plain_keys l
  | VDict d =>
      distinct_keys d &&
      (fix each (d : dict) : bool :=
         match d with
         | [] => true
         | (k, x) :: d' => plain_key k && plain_keys x && each d'
         end) d
  | _ => true
  end.

(** The text [path] is the path expression of the value [obj] inside
    [root]: scanning [path] leaves [parse_query_path] with the components
    [done] and the name [current], and these lead from [root] to [obj]. *)
Definition reaches (root : Value) (path : string) (obj : Value) : Prop :=
  exists done current,
    (forall s2,
        parse_query_path_from (path ++ s2) [] EmptyString =
        parse_query_path_from s2 done current) /\
    (forall rest,
        query_data root (flush done current ++ rest) = query_data obj rest).

(** The last character of the text is white space. *)
Fixpoint last_is_space (s : string) : bool :=
  match s with
  | EmptyString => false
  | String c EmptyString => Str.is_space c
  | String _ s' => last_is_space s'
  end.

(** An item of a parsed YAML list: a scalar, or a mapping with one key
    and a scalar value. *)
Definition flat_item (v : Value) : bool :=
  match v with
  | VDict [(_, w)] => is_scalar w
  | _ => is_scalar v
  end.

Definition scalar_values (d : dict) : bool :=
  forallb (fun kv => is_scalar (snd kv)) d.

(** A document without nesting: [None], a mapping of scalars with distinct
    keys, or a list of flat items. *)
Definition flat_document (v : Value) : bool :=
  match v with
  | VNone => true
  | VDict d => scalar_values d && distinct_keys d
  | VList l => forallb flat_item l
  | _ => false
  end.

(** A character of one of the filter operators. *)
Definition op_char (c : ascii) : bool :=
  existsb (Ascii.eqb c) ["="%char; "!"%char; "<"%char; ">"%char; "~"%char].

Definition operand_char (c : ascii) : bool := negb (op_char c).

(** The string leaves of a document, in the order [search_recursive]
    visits them. *)
Fixpoint string_leaves (v : Value) : list string :=
  match v with
  | VStr s => [s]
  | VList l =>
      (fix each (l : list Value) : list string :=
         match l with
         | [] => []
         | item :: l' => string_leaves item ++ each l'
         end) l
  | VDict d =>
      (fix values (d : dict) : list string :=
         match d with
         | [] => []
         | (_, value) :: d' => string_leaves value ++ values d'
         end) d
  | _ => []
  end.

(** The pattern matches the text. *)
Definition matches (re_search : string -> string -> bool -> option bool)
  (pattern : string) (ignorecase : bool) (s : string) : bool :=
  match re_search pattern s ignorecase with
  | Some true => true
  | _ => false
  end.

(** [isinstance(v, dict)] *)
Definition is_dict (v : Value) : bool :=
  match v with VDict _ => true | _ => false end.

(** The value of a boolean or null word of a filter literal. *)
Definition word_value (w : string) : Value :=
  if String.eqb w "true" then VBool true
  else if String.eqb w "false" then VBool false
  else VNone.

Definition not_c_space (c : ascii) : bool := negb (Num.is_c_space c).

(** The lines of a block, as [_parse_lines] meets them: blank lines,
    comments and deeper lines are passed over, the first line that is
    indented less than the block ends it; the lines are stripped. *)
Fixpoint block_lines (start_indent : nat) (lines : list string)
  : list string :=
  match lines with
  | [] => []
  | line :: rest =>
      if YAMLParser.is_skipped line then block_lines start_indent rest
      else if YAMLParser.indent_of line <? start_indent then []
      else if start_indent <? YAMLParser.indent_of line
           then block_lines start_indent rest
           else Str.strip line :: block_lines start_indent rest
  end.

(** The stripped line is a sequence item. *)
Definition is_item (stripped : string) : bool :=
  Str.startswith "- " stripped.

Definition not_item (stripped : string) : bool := negb (is_item stripped).

(** The items of a block: what each of its item lines contributes, in the
    order of the lines. *)
Definition block_items (start_indent : nat) (lines : list string)
  : list Value :=
  map YAMLParser.list_item (filter is_item (block_lines start_indent lines)).

(** The entry that one key-value line adds to a mapping. *)
Definition add_entry (d : dict) (stripped : string) : dict :=
  match Str.split_once ": " stripped with
  | Some (key, value) =>
      match Str.strip value with
      | EmptyString => d
      | v => Dict.set (Str.strip key) (_parse_value v) d
      end
  | None => d
  end.

(** The entries of a block: its lines that are not items, added one after
    the other to [d]. *)
Definition block_entries (start_indent : nat) (lines : list string)
  (d : dict) : dict :=
  fold_left add_entry (filter not_item (block_lines start_indent lines)) d.

(** * Properties *)

(** ** Text *)

(** [split_once] fails exactly when the separator does not occur, so its
    success stands for the test [sep in s] that guards each [split]. *)
Lemma split_once_contains (sep s : string) :
  Str.split_once sep s = None <-> Str.contains sep s = false.
Proof.
  induction s as [|c s IH].
  - simpl. destruct (Str.startswith sep EmptyString); simpl; split; congruence.
  - cbn [Str.split_once Str.contains].
    destruct (Str.startswith sep (String c s)); simpl.
    + split; congruence.
    + destruct (Str.split_once sep s) as [[a b]|].
      * split; [congruence|]. intros H. apply IH in H. congruence.
      * split; [intros _; now apply IH | reflexivity].
Qed.

(** ** The examples of the docstrings *)

Example parse_query_path_docstring :
  parse_query_path "users" = [CStr "users"] /\
  parse_query_path "users[0]" = [CStr "users"; CInt 0] /\
  parse_query_path "data.users[0].name" =
    [CStr "data"; CStr "users"; CInt 0; CStr "name"] /\
  parse_query_path "items[*]" = [CStr "items"; CStr "*"].
Proof. repeat split. Qed.

Example filter_data_docstring :
  let john := VDict [("name", VStr "John"); ("age", VInt 30)] in
  let mary := VDict [("name", VStr "Mary"); ("age", VInt 25)] in
  filter_data literal_search (VList [john; mary]) "age > 25" =
    Ok (VList [john]) /\
  filter_data literal_search (VList [john; mary]) "name == 'Mary'" =
    Ok (VList [mary]) /\
  filter_data literal_search (VList [john; mary]) "name ~ ar" =
    Ok (VList [mary]) /\
  filter_data literal_search mary "age >= 26" = Ok VNone /\
  filter_data literal_search (VList [john; mary]) "age" =
    Ok (VList [john; mary]).
Proof. vm_compute. repeat split. Qed.

Example query_data_projection :
  let doc := VDict [("items", VList [VDict [("price", VInt 3)];
                                      VDict [("name", VStr "x")];
                                      VDict [("price", VFloat (S754_zero false))]])] in
  query_data doc (parse_query_path "items[*].price") =
    VList [VInt 3; VFloat (S754_zero false)] /\
  query_data doc (parse_query_path "items.price") =
    VList [VInt 3; VFloat (S754_zero false)] /\
  query_data doc (parse_query_path "items[1].name") = VStr "x" /\
  query_data doc (parse_query_path "items[3]") = VNone.
Proof. vm_compute. repeat split. Qed.

(** ** The path evaluator *)

Lemma query_data_nil (data : Value) : query_data data [] = data.
Proof. reflexivity. Qed.

Lemma query_data_field (d : dict) (key : string) (rest : list component) :
  String.eqb key "*" = false ->
  query_data (VDict d) (CStr key :: rest) =
  match Dict.lookup key d with
  | Some v => query_data v rest
  | None => VNone
  end.
Proof. intros H. simpl. rewrite H. reflexivity. Qed.

Lemma query_data_star_not_list (data : Value) (rest : list component) :
  (forall l, data <> VList l) ->
  query_data data (CStr "*" :: rest) = VNone.
Proof.
  intros H. destruct data; try reflexivity. now elim (H l).
Qed.

(** C1, as the code has it: [query_data] has one result for "no value
    here" and for a located null, Python's [None].  For every mapping [d]
    that maps [k] to [None] and has no key [k'], looking up [k] and looking
    up [k'] both return [None]. *)
Theorem query_data_null_is_absent (d : dict) (k k' : string) :
  Dict.lookup k d = Some VNone ->
  Dict.lookup k' d = None ->
  query_data (VDict d) [CStr k] = VNone /\
  query_data (VDict d) [CStr k'] = VNone.
Proof.
  intros Hk Hk'. split; simpl.
  - destruct (String.eqb k "*"); [reflexivity|]. now rewrite Hk.
  - destruct (String.eqb k' "*"); [reflexivity|]. now rewrite Hk'.
Qed.

Lemma query_data_null_is_absent_witness :
  query_data (VDict [("a", VNone); ("b", VInt 1)]) [CStr "a"] = VNone /\
  query_data (VDict [("a", VNone); ("b", VInt 1)]) [CStr "c"] = VNone.
Proof.
  apply (query_data_null_is_absent [("a", VNone); ("b", VInt 1)] "a" "c");
    reflexivity.
Defined.

(** C1, as stated, fails: in the mapping [{"a": null}] the key ["a"] is
    present with a null value and the key ["b"] is missing, and the two
    lookups return the same result. *)
Lemma located_null_not_distinct :
  Dict.lookup "a" [("a", VNone)] = Some VNone /\
  Dict.lookup "b" [("a", VNone)] = None /\
  query_data (VDict [("a", VNone)]) [CStr "a"] =
  query_data (VDict [("a", VNone)]) [CStr "b"].
Proof. repeat split. Qed.

(** C2, as the code has it: the absent result is [None], so a result that
    is a located null counts as absent.  The wildcard against a list is
    the list, in order, of the results of the remaining path on each
    element that are not [None], and [None] when there is no such result;
    the wildcard against anything that is not a list is [None].  With
    nothing after the wildcard the results are the elements themselves,
    the null ones left out. *)
Theorem wildcard_distributivity (data : Value) (rest : list component) :
  query_data data (CStr "*" :: rest) =
  match data with
  | VList l =>
      match filter is_not_none (map (fun a => query_data a rest) l) with
      | [] => VNone
      | results => VList results
      end
  | _ => VNone
  end /\
  (forall l : list Value,
      query_data (VList l) [CStr "*"] =
      match filter is_not_none l with
      | [] => VNone
      | results => VList results
      end).
Proof.
  split.
  - destruct data; try reflexivity.
    simpl. unfold results_or_none.
    destruct (filter is_not_none (map (fun a => query_data a rest) l));
      reflexivity.
  - intros l. cbn [query_data is_star]. change (String.eqb "*" "*") with true.
    cbv iota. unfold results_or_none. rewrite map_id.
    destruct (filter is_not_none l); reflexivity.
Qed.

(** C2, as stated, fails: against [[null, 1]] the empty remaining path
    locates each element, the null included, so the sequence of the
    results that are not absent is [[null, 1]]; the wildcard returns
    [[1]].  The same happens below a key: in
    [[{"a": null}, {"a": 1}]] the key ["a"] is present in both elements
    and [[*].a] returns [[1]]. *)
Lemma wildcard_drops_located_null :
  map (fun a => query_data a []) [VNone; VInt 1] = [VNone; VInt 1] /\
  query_data (VList [VNone; VInt 1]) [CStr "*"] = VList [VInt 1] /\
  query_data (VList [VNone; VInt 1]) [CStr "*"] <> VList [VNone; VInt 1] /\
  Dict.lookup "a" [("a", VNone)] = Some VNone /\
  query_data (VList [VDict [("a", VNone)]; VDict [("a", VInt 1)]])
             [CStr "*"; CStr "a"] = VList [VInt 1].
Proof. repeat split. discriminate. Qed.

(** The same fact element by element: the result for [a :: l] is the result
    for [a], when there is one, in front of the results for [l]. *)
Lemma wildcard_cons (a : Value) (l : list Value) (rest : list component) :
  query_data (VList (a :: l)) (CStr "*" :: rest) =
  let here := query_data a rest in
  let there :=
    match query_data (VList l) (CStr "*" :: rest) with
    | VList results => results
    | _ => []
    end in
  if is_not_none here then VList (here :: there) else results_or_none there.
Proof.
  simpl.
  destruct (is_not_none (query_data a rest)); simpl;
    destruct (filter is_not_none (map (fun item => query_data item rest) l));
    reflexivity.
Qed.

(** C4, as the code has it: the wildcard is the string ["*"], however it
    was written.  The expressions ["*"] and ["[*]"] parse to the same path,
    and evaluating it against a mapping gives [None], whatever the keys of
    the mapping. *)
Theorem bare_star_is_wildcard :
  parse_query_path "*" = [CStr "*"] /\
  parse_query_path "[*]" = parse_query_path "*" /\
  forall d : dict, query_data (VDict d) (parse_query_path "*") = VNone.
Proof. repeat split. Qed.

(** C4, as stated, fails: the mapping [{"*": 7}] has the key ["*"], and the
    parsed path of ["*"] evaluates to [None] against it, not to [7]. *)
Lemma bare_star_not_field :
  Dict.lookup "*" [("*", VInt 7)] = Some (VInt 7) /\
  query_data (VDict [("*", VInt 7)]) (parse_query_path "*") = VNone /\
  query_data (VDict [("*", VInt 7)]) (parse_query_path "*") <> VInt 7.
Proof. repeat split. discriminate. Qed.

(** ** Indexing *)

Lemma list_index_nonneg (l : list Value) (n : Z) :
  (0 <= n)%Z -> list_index l n = nth_error l (Z.to_nat n).
Proof.
  intros H. unfold list_index.
  destruct (Z.leb_spec 0 n); [reflexivity | lia].
Qed.

Lemma list_index_neg (l : list Value) (n : Z) :
  (n < 0)%Z ->
  list_index l n =
  if (- Z.of_nat (List.length l) <=? n)%Z
  then nth_error l (Z.to_nat (Z.of_nat (List.length l) + n))
  else None.
Proof.
  intros H. unfold list_index.
  destruct (Z.leb_spec 0 n); [lia | reflexivity].
Qed.

(** C5, as the code has it: an index is resolved by Python's list
    indexing.  With [len] the length of the list, an index [n >= len] or
    [n < -len] gives [None]; an index [0 <= n < len] selects element [n];
    and an index [-len <= n < 0] selects element [len + n], counting from
    the end. *)
Theorem index_access (l : list Value) (n : Z) (rest : list component) :
  let len := Z.of_nat (List.length l) in
  ((len <= n)%Z -> query_data (VList l) (CInt n :: rest) = VNone) /\
  ((n < - len)%Z -> query_data (VList l) (CInt n :: rest) = VNone) /\
  ((0 <= n < len)%Z ->
   exists v, nth_error l (Z.to_nat n) = Some v /\
             query_data (VList l) (CInt n :: rest) = query_data v rest) /\
  ((- len <= n < 0)%Z ->
   exists v, nth_error l (Z.to_nat (len + n)) = Some v /\
             query_data (VList l) (CInt n :: rest) = query_data v rest).
Proof.
  intros len. subst len. cbn [query_data is_star].
  repeat split.
  - intros H. rewrite list_index_nonneg by lia.
    destruct (nth_error l (Z.to_nat n)) eqn:E; [|reflexivity].
    assert (Z.to_nat n < List.length l)
      by (apply nth_error_Some; congruence). lia.
  - intros H. rewrite list_index_neg by lia.
    destruct (Z.leb_spec (- Z.of_nat (List.length l)) n); [lia | reflexivity].
  - intros H. rewrite list_index_nonneg by lia.
    destruct (nth_error l (Z.to_nat n)) eqn:E.
    + exists v. split; reflexivity.
    + apply nth_error_None in E. lia.
  - intros H. rewrite list_index_neg by lia.
    destruct (Z.leb_spec (- Z.of_nat (List.length l)) n); [|lia].
    destruct (nth_error l (Z.to_nat (Z.of_nat (List.length l) + n))) eqn:E.
    + exists v. split; reflexivity.
    + apply nth_error_None in E. lia.
Qed.

Lemma index_access_witness :
  query_data (VList [VInt 10; VInt 20; VInt 30]) [CInt 3] = VNone /\
  query_data (VList [VInt 10; VInt 20; VInt 30]) [CInt (-4)] = VNone /\
  (exists v, nth_error [VInt 10; VInt 20; VInt 30] (Z.to_nat 1) = Some v /\
             query_data (VList [VInt 10; VInt 20; VInt 30]) [CInt 1] =
             query_data v []) /\
  (exists v, nth_error [VInt 10; VInt 20; VInt 30] (Z.to_nat (3 + -1)) = Some v /\
             query_data (VList [VInt 10; VInt 20; VInt 30]) [CInt (-1)] =
             query_data v []).
Proof.
  destruct (index_access [VInt 10; VInt 20; VInt 30] 3 []) as (H1 & _).
  destruct (index_access [VInt 10; VInt 20; VInt 30] (-4) []) as (_ & H2 & _).
  destruct (index_access [VInt 10; VInt 20; VInt 30] 1 []) as (_ & _ & H3 & _).
  destruct (index_access [VInt 10; VInt 20; VInt 30] (-1) []) as (_ & _ & _ & H4).
  split; [apply H1; simpl; lia|].
  split; [apply H2; simpl; lia|].
  split; [apply H3; simpl; lia | apply H4; simpl; lia].
Defined.

(** C5, as stated, fails: the index [-1] selects the last element of
    [[10, 20, 30]]; the path ["[-1]"] parses to that index. *)
Lemma negative_index_selects_from_end :
  parse_query_path "[-1]" = [CInt (-1)] /\
  query_data (VList [VInt 10; VInt 20; VInt 30]) [CInt (-1)] = VInt 30 /\
  query_data (VList [VInt 10; VInt 20; VInt 30]) [CInt (-1)] <> VNone.
Proof. repeat split. discriminate. Qed.

(** ** Comparison *)

(** C3, as the code has it: for a field value and a literal of different
    kinds, a boolean paired with a number apart, [==] and the four
    orderings give [False], [!=] gives [True], and none of them raises. *)
Theorem cross_kind_comparison
  (re_search : string -> string -> bool -> option bool) (a b : Value) :
  kind_of a <> kind_of b ->
  bool_with_number a b = false ->
  check_condition re_search a "==" b = Ok false /\
  check_condition re_search a "!=" b = Ok true /\
  check_condition re_search a ">" b = Ok false /\
  check_condition re_search a "<" b = Ok false /\
  check_condition re_search a ">=" b = Ok false /\
  check_condition re_search a "<=" b = Ok false.
Proof.
  intros Hkind Hbn.
  destruct a, b; simpl in Hkind; try congruence;
    try discriminate Hbn; repeat split.
Qed.

Lemma cross_kind_comparison_witness :
  check_condition literal_search (VInt 3) "==" (VStr "3") = Ok false /\
  check_condition literal_search (VInt 3) "!=" (VStr "3") = Ok true /\
  check_condition literal_search (VInt 3) ">" (VStr "3") = Ok false /\
  check_condition literal_search (VInt 3) "<" (VStr "3") = Ok false /\
  check_condition literal_search (VInt 3) ">=" (VStr "3") = Ok false /\
  check_condition literal_search (VInt 3) "<=" (VStr "3") = Ok false.
Proof.
  apply (cross_kind_comparison literal_search (VInt 3) (VStr "3")).
  - simpl. discriminate.
  - reflexivity.
Defined.

(** C3, as stated, fails: a number is [!=] a string, and the boolean
    [True] equals the number [1] and is above the number [0]. *)
Lemma cross_kind_not_always_false :
  kind_of (VInt 1) <> kind_of (VStr "a") /\
  check_condition literal_search (VInt 1) "!=" (VStr "a") = Ok true /\
  kind_of (VBool true) <> kind_of (VInt 1) /\
  check_condition literal_search (VBool true) "==" (VInt 1) = Ok true /\
  check_condition literal_search (VBool true) ">" (VInt 0) = Ok true.
Proof. repeat split; discriminate. Qed.

(** ** Scalars *)

Lemma in_words_yaml_split (x : string) :
  in_words x yaml_words = false ->
  in_words x ["true"; "yes"; "on"] = false /\
  in_words x ["false"; "no"; "off"] = false /\
  in_words x ["null"; "none"; "~"] = false /\
  String.eqb x "true" = false /\
  String.eqb x "false" = false /\
  in_words x ["null"; "none"] = false.
Proof.
  unfold in_words, yaml_words. simpl.
  repeat match goal with
         | |- context [String.eqb x ?w] => destruct (String.eqb x w)
         end; simpl; intros H; try discriminate H; repeat split.
Qed.

(** C6, as the code has it: on an unquoted token that is not a boolean or
    null word, both scalar parsers attempt one numeric parse, chosen by the
    presence of a dot: the float parse when the token contains ["."], the
    integer parse otherwise; when that parse rejects the token, the token
    itself is returned as a string.  A token without a dot that the integer
    parse rejects is therefore a string, whatever the float parse would
    say. *)
Theorem scalar_number_rule (value tok : string) :
  tok = Str.strip value ->
  is_quoted tok = false ->
  in_words (Str.lower tok) yaml_words = false ->
  (Str.contains "." tok = true ->
   _parse_value value =
     match Num.py_float tok with Some f => VFloat f | None => VStr tok end /\
   parse_filter_value value =
     match Num.py_float tok with Some f => VFloat f | None => VStr tok end) /\
  (Str.contains "." tok = false ->
   _parse_value value =
     match Num.py_int tok with Some z => VInt z | None => VStr tok end /\
   parse_filter_value value =
     match Num.py_int tok with Some z => VInt z | None => VStr tok end).
Proof.
  intros -> Hq Hw.
  apply in_words_yaml_split in Hw.
  destruct Hw as (H1 & H2 & H3 & H4 & H5 & H6).
  unfold _parse_value, parse_filter_value, parse_number.
  rewrite Hq, H1, H2, H3, H4, H5, H6.
  split; intros ->.
  - destruct (Num.py_float (Str.strip value)); split; reflexivity.
  - destruct (Num.py_int (Str.strip value)); split; reflexivity.
Qed.

Lemma scalar_number_rule_witness :
  (Str.contains "." "2.5" = true ->
   _parse_value " 2.5 " =
     match Num.py_float "2.5" with Some f => VFloat f | None => VStr "2.5" end /\
   parse_filter_value " 2.5 " =
     match Num.py_float "2.5" with Some f => VFloat f | None => VStr "2.5" end) /\
  (Str.contains "." "2.5" = false ->
   _parse_value " 2.5 " =
     match Num.py_int "2.5" with Some z => VInt z | None => VStr "2.5" end /\
   parse_filter_value " 2.5 " =
     match Num.py_int "2.5" with Some z => VInt z | None => VStr "2.5" end).
Proof.
  apply (scalar_number_rule " 2.5 " "2.5"); reflexivity.
Defined.

(** C6, as stated, fails: the float parse accepts ["1e5"] (as 100000.0),
    the integer parse rejects it, and both scalar parsers return the string
    ["1e5"]. *)
Lemma exponent_token_stays_string :
  Num.py_float "1e5" = Some (S754_finite false 6871947673600000 (-36)) /\
  Num.py_int "1e5" = None /\
  _parse_value "1e5" = VStr "1e5" /\
  parse_filter_value "1e5" = VStr "1e5".
Proof. repeat split. Qed.

(** ** Filters *)

Lemma filterM_fixed {A : Type} (p : A -> result bool) (l kept : list A) :
  filterM p l = Ok kept -> filterM p kept = Ok kept.
Proof.
  revert kept. induction l as [|x l IH]; intros kept; simpl.
  - intros [= <-]. reflexivity.
  - destruct (p x) as [b|e] eqn:Hx; simpl; [|discriminate].
    destruct (filterM p l) as [r|e]; simpl; [|discriminate].
    intros [= <-]. specialize (IH r eq_refl).
    destruct b; [|exact IH].
    simpl. rewrite Hx. simpl. rewrite IH. reflexivity.
Qed.

(** C8: filtering the result of a filter with the same expression changes
    nothing.  When the first application raises (the pattern of a [~]
    filter does not compile) so does the composition. *)
Theorem filter_idempotent
  (re_search : string -> string -> bool -> option bool)
  (v : Value) (e : string) :
  (r <- filter_data re_search v e ;; filter_data re_search r e) =
  filter_data re_search v e.
Proof.
  unfold filter_data.
  destruct e as [|c e]; [reflexivity|].
  destruct (find_operator operators (String c e)) as [[[op key] value]|];
    [|reflexivity].
  destruct v; try reflexivity.
  - destruct (filterM (keeps re_search key op (parse_filter_value value)) l)
      as [kept|err] eqn:E; [|reflexivity].
    simpl. rewrite (filterM_fixed _ _ _ E). reflexivity.
  - destruct (Dict.lookup key d) as [item_value|] eqn:Hl; [|reflexivity].
    destruct (check_condition re_search item_value op
                (parse_filter_value value)) as [[|]|err] eqn:Hc;
      simpl; [|reflexivity|reflexivity].
    rewrite Hl, Hc. reflexivity.
Qed.

(** ** Search *)

Lemma search_list_enumerate
  (re_search : string -> string -> bool -> option bool)
  (pattern : string) (ignorecase : bool) (path : string) (l : list Value) :
  search_recursive re_search pattern ignorecase (VList l) path =
  search_enumerate re_search pattern ignorecase path 0 l.
Proof.
  cbn [search_recursive]. generalize 0.
  induction l as [|item l IH]; intros i; [reflexivity|].
  cbn [search_enumerate]. rewrite <- IH. reflexivity.
Qed.

Lemma search_enumerate_strings
  (re_search : string -> string -> bool -> option bool)
  (pattern : string) (ignorecase : bool) (path : string) (l : list string) :
  Forall (fun s => re_search pattern s ignorecase = Some true) l ->
  forall i,
    search_enumerate re_search pattern ignorecase path i (map VStr l) =
    Ok (indexed_from path i l).
Proof.
  induction 1 as [|s l Hs _ IH]; intros i; [reflexivity|].
  cbn [map search_enumerate indexed_from search_recursive].
  rewrite Hs, IH. reflexivity.
Qed.

(** C10: the root carries no path prefix.  A root string that matches is
    reported once, under the empty path; the elements of a root list are
    reported under ["[0]"], ["[1]"], ... with nothing in front. *)
Theorem search_root_paths
  (re_search : string -> string -> bool -> option bool)
  (pattern : string) (case_sensitive : bool) :
  (forall s,
      re_search pattern s (negb case_sensitive) = Some true ->
      search_data re_search (VStr s) pattern case_sensitive =
      Ok [(EmptyString, s)]) /\
  (forall l,
      Forall (fun s => re_search pattern s (negb case_sensitive) = Some true)
             l ->
      search_data re_search (VList (map VStr l)) pattern case_sensitive =
      Ok (indexed_from EmptyString 0 l)).
Proof.
  split.
  - intros s Hs. unfold search_data. simpl. rewrite Hs. reflexivity.
  - intros l Hl. unfold search_data.
    rewrite search_list_enumerate.
    now apply search_enumerate_strings.
Qed.

Lemma search_root_paths_witness :
  search_data literal_search (VStr "Hello") "ell" false =
    Ok [(EmptyString, "Hello")] /\
  search_data literal_search (VList (map VStr ["Hello"; "bell"])) "ell" false =
    Ok [("[0]", "Hello"); ("[1]", "bell")].
Proof.
  destruct (search_root_paths literal_search "ell" false) as [H1 H2].
  split.
  - apply H1. reflexivity.
  - apply (H2 ["Hello"; "bell"]). repeat constructor.
Defined.

(** ** Statistics *)

(** The example of the documentation: the numbers of
    [[1, 2.5, {"a": 3}, [4]]] are [1], [2.5], [3], [4] in that order; their
    sum is 10.5 and their average 2.625. *)
Example stats_of_mixed_document :
  let two_and_half := S754_finite false 5629499534213120 (-51) in
  let doc := VList [VInt 1; VFloat two_and_half;
                    VDict [("a", VInt 3)]; VList [VInt 4]] in
  collect_numbers doc = [VInt 1; VFloat two_and_half; VInt 3; VInt 4] /\
  Num.py_float "2.5" = Some two_and_half /\
  Stats.calculate_stats doc =
    Ok (VDict [("count", VInt 4);
               ("sum", VFloat (S754_finite false 5910974510923776 (-49)));
               ("avg", VFloat (S754_finite false 5910974510923776 (-51)));
               ("min", VInt 1);
               ("max", VInt 4)]) /\
  Num.py_float "10.5" = Some (S754_finite false 5910974510923776 (-49)) /\
  Num.py_float "2.625" = Some (S754_finite false 5910974510923776 (-51)).
Proof. vm_compute. repeat split. Qed.

Example stats_of_empty_list :
  collect_numbers (VList []) = [] /\
  Stats.calculate_stats (VList []) =
    Ok (VDict [("error", VStr "No numeric values found")]).
Proof. split; reflexivity. Qed.

(** A document without a numeric leaf reports the condition, it does not
    raise. *)
Lemma stats_no_numbers (data : Value) :
  collect_numbers data = [] ->
  Stats.calculate_stats data =
    Ok (VDict [("error", VStr "No numeric values found")]).
Proof. intros H. unfold Stats.calculate_stats. now rewrite H. Qed.

(** C7 at the document [[true]]: the boolean leaf is collected as a number
    ([bool] is a subclass of [int], and [collect_numbers] tests
    [isinstance(obj, (int, float))]), so the statistics count one value of
    sum 1 where no number is present. *)
Theorem bool_leaf_is_collected :
  collect_numbers (VList [VBool true]) = [VBool true] /\
  Stats.calculate_stats (VList [VBool true]) =
    Ok (VDict [("count", VInt 1);
               ("sum", VInt 1);
               ("avg", VFloat (S754_finite false 4503599627370496 (-52)));
               ("min", VBool true);
               ("max", VBool true)]).
Proof. vm_compute. split; reflexivity. Qed.

(** ** The YAML parser *)

Module YAMLFacts.
Import YAMLParser.

Lemma snd_finish (st : locals) : snd (finish st) = i st.
Proof. unfold finish. destruct (in_list st); reflexivity. Qed.

Lemma nth_error_skipn_0 {A : Type} (n : nat) (l : list A) :
  nth_error (skipn n l) 0 = nth_error l n.
Proof.
  revert l. induction n as [|n IH]; intros l.
  - reflexivity.
  - destruct l as [|x l]; [reflexivity | apply IH].
Qed.

(** Termination of the loop from a state with [fuel] to spare. *)
Definition total_from (fuel : nat) : Prop :=
  forall lines start_indent st,
    i st <= List.length lines ->
    2 * (List.length lines - i st) + 1 <= fuel ->
    exists st',
      parse_loop fuel lines start_indent st = Some st' /\
      i st <= i st' /\ i st' <= List.length lines.

(** Termination of a call whose first line belongs to the block: one unit
    less is enough, and the line is consumed. *)
Definition total_at_line (fuel : nat) : Prop :=
  forall lines start_indent st line,
    nth_error lines (i st) = Some line ->
    is_skipped line = false ->
    indent_of line = start_indent ->
    2 * (List.length lines - i st) <= fuel ->
    exists st',
      parse_loop fuel lines start_indent st = Some st' /\
      i st < i st' /\ i st' <= List.length lines.

Lemma advance (fuel : nat) (lines : list string) (start_indent : nat)
  (st st2 : locals) :
  total_from fuel ->
  i st2 = S (i st) ->
  i st < List.length lines ->
  2 * (List.length lines - i st) <= S fuel ->
  exists st',
    parse_loop fuel lines start_indent st2 = Some st' /\
    i st < i st' /\ i st' <= List.length lines.
Proof.
  intros Hfrom Hi Hlt Hfuel.
  destruct (Hfrom lines start_indent st2) as (st' & E & H1 & H2);
    [lia | lia |].
  exists st'. repeat split; [exact E | lia | exact H2].
Qed.

Lemma parse_loop_total_both (fuel : nat) :
  total_from fuel /\ total_at_line fuel.
Proof.
  induction fuel as [|fuel [IHfrom IHline]].
  - split.
    + intros lines start_indent st _ H. lia.
    + intros lines start_indent st line Hn _ _ H.
      assert (i st < List.length lines)
        by (apply nth_error_Some; congruence). lia.
  - split.
    + intros lines start_indent st Hle Hfuel.
      cbn [parse_loop].
      destruct (nth_error lines (i st)) as [line|] eqn:Hn;
        [|exists st; auto].
      assert (Hlt : i st < List.length lines)
        by (apply nth_error_Some; congruence).
      assert (Hadv : forall st2, i st2 = S (i st) ->
                exists st', parse_loop fuel lines start_indent st2 = Some st' /\
                            i st <= i st' /\ i st' <= List.length lines).
      { intros st2 H2.
        destruct (advance fuel lines start_indent st st2 IHfrom H2 Hlt)
          as (st' & E & ? & ?); [lia|].
        exists st'. repeat split; [exact E | lia | assumption]. }
      destruct (is_skipped line) eqn:Hskip; [now apply Hadv|].
      destruct (indent_of line <? start_indent); [exists st; auto|].
      destruct (start_indent <? indent_of line).
      * destruct (pending_key st) as [key|]; [|now apply Hadv].
        destruct (IHline (skipn (i st) lines) (indent_of line) initial line)
          as (nested & En & Hn1 & Hn2).
        { change (i initial) with 0. now rewrite nth_error_skipn_0. }
        { exact Hskip. }
        { reflexivity. }
        { change (i initial) with 0. rewrite length_skipn. lia. }
        rewrite En.
        rewrite length_skipn in Hn2. simpl in Hn1.
        destruct (finish nested) as [nested_result lines_consumed] eqn:Ef.
        assert (lines_consumed = i nested)
          by (rewrite <- snd_finish, Ef; reflexivity).
        subst lines_consumed.
        match goal with
        | |- exists st', parse_loop _ _ _ ?st2 = _ /\ _ =>
            destruct (IHfrom lines start_indent st2) as (st' & E & H1 & H2);
              [simpl; lia | simpl; lia |];
              exists st'; simpl in H1; repeat split;
              [exact E | lia | exact H2]
        end.
      * destruct (Str.startswith "- " (Str.strip line)); [now apply Hadv|].
        destruct (Str.split_once ": " (Str.strip line)) as [[key value]|];
          [|now apply Hadv].
        destruct (Str.strip value); now apply Hadv.
    + intros lines start_indent st line Hn Hskip Hind Hfuel.
      assert (Hlt : i st < List.length lines)
        by (apply nth_error_Some; congruence).
      cbn [parse_loop]. rewrite Hn, Hskip, Hind.
      rewrite Nat.ltb_irrefl.
      assert (Hadv : forall st2, i st2 = S (i st) ->
                exists st', parse_loop fuel lines start_indent st2 = Some st' /\
                            i st < i st' /\ i st' <= List.length lines).
      { intros st2 H2. subst start_indent.
        now apply (advance fuel lines (indent_of line) st st2). }
      destruct (Str.startswith "- " (Str.strip line)); [now apply Hadv|].
      destruct (Str.split_once ": " (Str.strip line)) as [[key value]|];
        [|now apply Hadv].
      destruct (Str.strip value); now apply Hadv.
Qed.

(** [fuel_for lines] units are enough: [_parse_lines] returns. *)
Lemma parse_loop_total (lines : list string) (start_indent : nat) :
  exists st,
    parse_loop (fuel_for lines) lines start_indent initial = Some st /\
    i st <= List.length lines.
Proof.
  destruct (parse_loop_total_both (fuel_for lines)) as [Hfrom _].
  destruct (Hfrom lines start_indent initial) as (st & E & _ & H).
  - simpl. lia.
  - unfold fuel_for. simpl. lia.
  - exists st. auto.
Qed.

(** Once [in_list] is set it stays set, and [current_list] only grows. *)
Lemma parse_loop_in_list (fuel : nat) :
  forall lines start_indent st st',
    parse_loop fuel lines start_indent st = Some st' ->
    in_list st = true ->
    in_list st' = true /\
    exists items, current_list st' = current_list st ++ items.
Proof.
  induction fuel as [|fuel IH]; intros lines start_indent st st' H Hin;
    [discriminate|].
  cbn [parse_loop] in H.
  assert (Hstop : Some st = Some st' ->
            in_list st' = true /\
            exists items, current_list st' = current_list st ++ items).
  { intros [= <-]. split; [exact Hin|]. exists []. now rewrite app_nil_r. }
  assert (Hsame : forall st2,
            parse_loop fuel lines start_indent st2 = Some st' ->
            in_list st2 = in_list st ->
            current_list st2 = current_list st ->
            in_list st' = true /\
            exists items, current_list st' = current_list st ++ items).
  { intros st2 H2 Hi Hc. rewrite <- Hc. apply (IH _ _ _ _ H2). congruence. }
  destruct (nth_error lines (i st)) as [line|]; [|auto].
  destruct (is_skipped line); [now apply (Hsame _ H)|].
  destruct (indent_of line <? start_indent); [auto|].
  destruct (start_indent <? indent_of line).
  - destruct (pending_key st) as [key|]; [|now apply (Hsame _ H)].
    destruct (parse_loop fuel (skipn (i st) lines) (indent_of line) initial)
      as [nested|]; [|discriminate].
    destruct (finish nested) as [nested_result lines_consumed].
    now apply (Hsame _ H).
  - destruct (Str.startswith "- " (Str.strip line)).
    + apply IH in H; [|reflexivity].
      destruct H as [H1 [items H2]]. split; [exact H1|].
      simpl in H2. rewrite <- app_assoc in H2. eauto.
    + destruct (Str.split_once ": " (Str.strip line)) as [[key value]|];
        [|now apply (Hsame _ H)].
      destruct (Str.strip value); now apply (Hsame _ H).
Qed.

(** Reading a sequence item sets [in_list] and appends the item. *)
Lemma parse_loop_reads_item (fuel : nat) :
  forall lines start_indent st st',
    parse_loop fuel lines start_indent st = Some st' ->
    reads_item lines start_indent st = true ->
    in_list st' = true /\
    exists items, current_list st' = current_list st ++ items.
Proof.
  intros lines start_indent st st' H Hr.
  destruct fuel as [|fuel]; [discriminate|].
  cbn [parse_loop] in H. unfold reads_item in Hr.
  destruct (nth_error lines (i st)) as [line|]; [|discriminate].
  apply andb_prop in Hr. destruct Hr as [Hr Hitem].
  apply andb_prop in Hr. destruct Hr as [Hskip Hind].
  apply negb_true_iff in Hskip. apply Nat.eqb_eq in Hind.
  rewrite Hskip, Hind, Nat.ltb_irrefl, Hitem in H.
  apply parse_loop_in_list in H; [|reflexivity].
  destruct H as [H1 [items H2]]. split; [exact H1|].
  simpl in H2. rewrite <- app_assoc in H2. eauto.
Qed.

End YAMLFacts.

(** A block that mixes items and key-value lines is the list of its
    items; a block of comments is [None]. *)
Example yaml_mixed_block :
  YAMLParser.parse "- a
k: v
- b: 1" = Some (VList [VStr "a"; VDict [("b", VInt 1)]]) /\
  YAMLParser.parse "k: v
- a
other: 2" = Some (VList [VStr "a"]) /\
  YAMLParser.parse "# nothing here" = Some VNone.
Proof. vm_compute. repeat split. Qed.

(** * Further properties of the module *)

(** ** Structural induction on values *)

Lemma Value_induction (P : Value -> Prop) :
  P VNone ->
  (forall b, P (VBool b)) ->
  (forall z, P (VInt z)) ->
  (forall f, P (VFloat f)) ->
  (forall s, P (VStr s)) ->
  (forall l, Forall P l -> P (VList l)) ->
  (forall d, Forall (fun kv => P (snd kv)) d -> P (VDict d)) ->
  forall v, P v.
Proof.
  intros HNone HBool HInt HFloat HStr HList HDict.
  fix IH 1. intros [ | b | z | f | s | l | d].
  - exact HNone.
  - apply HBool.
  - apply HInt.
  - apply HFloat.
  - apply HStr.
  - apply HList.
    induction l as [|x l IHl]; constructor; [apply IH | exact IHl].
  - apply HDict.
    induction d as [|[k x] d IHd]; constructor; [apply IH | exact IHd].
Qed.

(** ** More on [query_data] *)

(** A scalar has nothing below it: every non-empty path gives [None]. *)
Theorem query_data_scalar (data : Value) (c : component)
  (rest : list component) :
  is_scalar data = true ->
  query_data data (c :: rest) = VNone.
Proof.
  intros H. destruct data; try discriminate H; simpl;
    destruct (is_star c); reflexivity.
Qed.

Lemma query_data_scalar_witness :
  query_data (VStr "text") [CStr "length"] = VNone.
Proof.
  apply (query_data_scalar (VStr "text") (CStr "length") []). reflexivity.
Defined.

(** X11: A key applied to a list projects over its elements; when no element is
    itself a list this is what the explicit wildcard followed by the key
    gives. *)
Theorem projection_is_wildcard (l : list Value) (key : string)
  (rest : list component) :
  String.eqb key "*" = false ->
  forallb (fun v => negb (is_list v)) l = true ->
  query_data (VList l) (CStr key :: rest) =
  query_data (VList l) (CStr "*" :: CStr key :: rest).
Proof.
  intros Hkey Hl.
  cbn [query_data is_star]. rewrite Hkey.
  change (String.eqb "*" "*") with true. cbv iota.
  f_equal.
  induction l as [|item l IH]; [reflexivity|].
  cbn [forallb] in Hl. apply andb_prop in Hl. destruct Hl as [Hitem Hl].
  cbn [flat_map map]. rewrite filter_app, (IH Hl). clear IH.
  destruct item; try discriminate Hitem; cbn [query_data is_star];
    rewrite ?Hkey; try reflexivity.
  destruct (Dict.lookup key d) as [v|]; [|reflexivity].
  cbn [filter app]. destruct (is_not_none (query_data v rest)); reflexivity.
Qed.

Lemma projection_is_wildcard_witness :
  query_data (VList [VDict [("id", VInt 1)]; VInt 5; VDict [("id", VInt 2)]])
             [CStr "id"] =
  query_data (VList [VDict [("id", VInt 1)]; VInt 5; VDict [("id", VInt 2)]])
             [CStr "*"; CStr "id"].
Proof.
  apply (projection_is_wildcard
           [VDict [("id", VInt 1)]; VInt 5; VDict [("id", VInt 2)]] "id" []);
    reflexivity.
Defined.

(** ** More on filters *)

(** X12: Against a scalar literal (all that [parse_filter_value] gives), an
    exception leaves [check_condition] only from the call of [re.search]:
    the operator is [~], both sides are strings and [re.search] itself
    raised.  Every other comparison returns a boolean. *)
Theorem check_condition_raises_only_regex
  (re_search : string -> string -> bool -> option bool)
  (a b : Value) (operator : string) (e : exn) :
  is_scalar b = true ->
  check_condition re_search a operator b = Raise e ->
  operator = "~" /\
  exists subject pattern,
    a = VStr subject /\ b = VStr pattern /\
    re_search pattern subject false = None.
Proof.
  intros _.
  unfold check_condition, ordered.
  repeat match goal with
         | |- context [String.eqb operator ?w] =>
             destruct (String.eqb_spec operator w)
         | |- context [Cmp.py_ord ?o a b] => destruct (Cmp.py_ord o a b)
         end; try discriminate.
  destruct a; try discriminate. destruct b; try discriminate.
  destruct (re_search s0 s false) eqn:E; [discriminate|].
  intros _. split; [assumption|]. eauto.
Qed.

Lemma check_condition_raises_only_regex_witness :
  "~" = "~" /\
  exists subject pattern,
    VStr "abc" = VStr subject /\ VStr "(" = VStr pattern /\
    (fun _ _ _ => None) pattern subject false = (None : option bool).
Proof.
  apply (check_condition_raises_only_regex
           (fun _ _ _ => None) (VStr "abc") (VStr "(") "~" ReError);
    reflexivity.
Defined.

Lemma find_operator_none (ops : list string) (filter_expr : string) :
  (forall op, In op ops -> Str.contains op filter_expr = false) ->
  find_operator ops filter_expr = None.
Proof.
  induction ops as [|op ops IH]; intros H; [reflexivity|].
  simpl.
  assert (E : Str.split_once op filter_expr = None)
    by (apply split_once_contains, H; now left).
  rewrite E. apply IH. intros op' Hin. apply H. now right.
Qed.

(** X13: An expression in which no operator occurs filters nothing: the data
    is returned as it is, whatever it is. *)
Theorem filter_without_operator
  (re_search : string -> string -> bool -> option bool)
  (data : Value) (filter_expr : string) :
  (forall op, In op operators -> Str.contains op filter_expr = false) ->
  filter_data re_search data filter_expr = Ok data.
Proof.
  intros H. unfold filter_data.
  destruct filter_expr; [reflexivity|].
  now rewrite (find_operator_none _ _ H).
Qed.

Lemma filter_without_operator_witness :
  filter_data literal_search (VList [VInt 1; VStr "x"]) "age above 25" =
  Ok (VList [VInt 1; VStr "x"]).
Proof.
  apply filter_without_operator.
  intros op Hin. simpl in Hin.
  repeat (destruct Hin as [<-|Hin]; [reflexivity|]). destruct Hin.
Defined.

Lemma filterM_filter {A : Type} (p : A -> result bool) (l kept : list A) :
  filterM p l = Ok kept ->
  kept = filter (fun x => match p x with Ok true => true | _ => false end) l.
Proof.
  revert kept. induction l as [|x l IH]; intros kept; simpl.
  - now intros [= <-].
  - destruct (p x) as [b|e]; simpl; [|discriminate].
    destruct (filterM p l) as [r|e]; simpl; [|discriminate].
    intros [= <-]. rewrite <- (IH r eq_refl). destruct b; reflexivity.
Qed.

(** X14: Filtering a list keeps, in their order, the elements that are mappings
    holding the key with a value that satisfies the condition, and nothing
    else; the result is a list even when nothing is kept. *)
Theorem filter_list_kept
  (re_search : string -> string -> bool -> option bool)
  (l : list Value) (filter_expr operator key value : string) (r : Value) :
  find_operator operators filter_expr = Some (operator, key, value) ->
  filter_data re_search (VList l) filter_expr = Ok r ->
  r = VList (filter (passes re_search key operator (parse_filter_value value))
               l).
Proof.
  intros Hop. unfold filter_data.
  destruct filter_expr; [discriminate Hop|].
  rewrite Hop.
  destruct (filterM (keeps re_search key operator (parse_filter_value value)) l)
    as [kept|e] eqn:E; simpl; [|discriminate].
  intros [= <-]. f_equal. now apply filterM_filter.
Qed.

Lemma filter_list_kept_witness :
  VList [VDict [("age", VInt 30)]] =
  VList (filter (passes literal_search "age" ">" (parse_filter_value "25"))
           [VDict [("age", VInt 30)]; VInt 40; VDict [("age", VInt 20)];
            VDict [("name", VStr "x")]]).
Proof.
  apply (filter_list_kept literal_search
           [VDict [("age", VInt 30)]; VInt 40; VDict [("age", VInt 20)];
            VDict [("name", VStr "x")]] "age > 25" ">" "age" "25");
    reflexivity.
Defined.

(** ** Facts about text *)

Module StrFacts.

Lemma append_nil_r (s : string) : (s ++ "")%string = s.
Proof. induction s as [|c s IH]; simpl; [reflexivity | now rewrite IH]. Qed.

Lemma append_assoc (a b c : string) :
  ((a ++ b) ++ c)%string = (a ++ (b ++ c))%string.
Proof. induction a as [|x a IH]; simpl; [reflexivity | now rewrite IH]. Qed.

Lemma snoc_not_empty (a : string) (c : ascii) :
  (a ++ String c "")%string <> EmptyString.
Proof. destruct a; discriminate. Qed.

Lemma all_chars_app (p : ascii -> bool) (a b : string) :
  all_chars p (a ++ b) = all_chars p a && all_chars p b.
Proof.
  induction a as [|x a IH]; simpl; [reflexivity|].
  now rewrite IH, andb_assoc.
Qed.

Lemma all_chars_impl (p q : ascii -> bool) (s : string) :
  (forall c, p c = true -> q c = true) ->
  all_chars p s = true -> all_chars q s = true.
Proof.
  intros Hpq. induction s as [|c s IH]; simpl; [reflexivity|].
  intros H. apply andb_prop in H. destruct H as [Hc Hs].
  now rewrite (Hpq c Hc), (IH Hs).
Qed.

(** [rstrip] leaves alone a text that ends with a character that is not
    white space. *)
Lemma rstrip_snoc (a : string) (c : ascii) :
  Str.is_space c = false ->
  Str.rstrip (a ++ String c "") = (a ++ String c "")%string.
Proof.
  intros Hc. induction a as [|x a IH]; simpl.
  - now rewrite Hc.
  - rewrite IH. destruct (a ++ String c "")%string eqn:E; [|reflexivity].
    now apply snoc_not_empty in E.
Qed.

Lemma rstrip_no_space (s : string) :
  all_chars not_space s = true -> Str.rstrip s = s.
Proof.
  induction s as [|c s IH]; simpl; [reflexivity|].
  intros H. apply andb_prop in H. destruct H as [Hc Hs].
  rewrite (IH Hs). unfold not_space in Hc. apply negb_true_iff in Hc.
  rewrite Hc. destruct s; reflexivity.
Qed.

Lemma lstrip_no_space (s : string) :
  all_chars not_space s = true -> Str.lstrip s = s.
Proof.
  destruct s as [|c s]; simpl; [reflexivity|].
  intros H. apply andb_prop in H. destruct H as [Hc _].
  unfold not_space in Hc. apply negb_true_iff in Hc. now rewrite Hc.
Qed.

Lemma strip_no_space (s : string) :
  all_chars not_space s = true -> Str.strip s = s.
Proof.
  intros H. unfold Str.strip. rewrite (lstrip_no_space s H).
  now apply rstrip_no_space.
Qed.

(** A text between two characters that are not white space is not changed
    by [strip]. *)
Lemma strip_between (q : ascii) (body : string) :
  Str.is_space q = false ->
  Str.strip (String q (body ++ String q "")) =
  String q (body ++ String q "").
Proof.
  intros Hq. unfold Str.strip. simpl Str.lstrip. rewrite Hq.
  change (String q (body ++ String q ""))
    with (String q body ++ String q "")%string.
  now apply rstrip_snoc.
Qed.

Lemma endswith_char_snoc (a : string) (c : ascii) :
  Str.endswith_char c (a ++ String c "") = true.
Proof.
  induction a as [|x a IH]; simpl.
  - apply Ascii.eqb_refl.
  - rewrite IH. destruct (a ++ String c "")%string eqn:E; [|reflexivity].
    now apply snoc_not_empty in E.
Qed.

Lemma drop_last_snoc (a : string) (c : ascii) :
  Str.drop_last (a ++ String c "") = a.
Proof.
  induction a as [|x a IH]; simpl; [reflexivity|].
  rewrite IH. destruct (a ++ String c "")%string eqn:E; [|reflexivity].
  now apply snoc_not_empty in E.
Qed.

Lemma split_once_app (sep s a b : string) :
  Str.split_once sep s = Some (a, b) -> s = (a ++ sep ++ b)%string.
Proof.
  revert a. induction s as [|c s IH]; intros a.
  - cbn [Str.split_once].
    destruct (Str.startswith sep "") eqn:E; [|discriminate].
    intros [= <- <-]. destruct sep; [reflexivity | discriminate E].
  - cbn [Str.split_once].
    destruct (Str.startswith sep (String c s)) eqn:E.
    + intros [= <- <-]. simpl append.
      clear IH. revert c s E.
      induction sep as [|x sep IHsep]; intros c s E; [reflexivity|].
      simpl in E. apply andb_prop in E. destruct E as [Ex E].
      apply Ascii.eqb_eq in Ex. subst x. simpl. f_equal.
      destruct s as [|c' s].
      * destruct sep; [reflexivity | discriminate E].
      * destruct sep as [|y sep']; [reflexivity|].
        now apply IHsep.
    + destruct (Str.split_once sep s) as [[a' b']|]; [|discriminate].
      intros [= <- <-]. simpl. f_equal. now apply IH.
Qed.

End StrFacts.

(** ** More on the scalar parsers *)

Module ScalarFacts.

Lemma slice_between (q : ascii) (body : string) :
  Str.slice_1_m1 (String q (body ++ String q "")) = body.
Proof. unfold Str.slice_1_m1. simpl. apply StrFacts.drop_last_snoc. Qed.

Lemma wrapped_between (q : ascii) (body : string) :
  wrapped_in q (String q (body ++ String q "")) = true.
Proof.
  unfold wrapped_in. apply andb_true_intro. split.
  - cbn [Str.startswith]. now rewrite Ascii.eqb_refl.
  - change (String q (body ++ String q ""))
      with (String q body ++ String q "")%string.
    apply StrFacts.endswith_char_snoc.
Qed.

(** The decimal digits of a number: no white space, no dot, no closing
    bracket. *)
Lemma digits_all (d : Decimal.uint) :
  all_chars Num.is_digit (NilEmpty.string_of_uint d) = true.
Proof. induction d; simpl; auto. Qed.

Lemma is_digit_classes (c : ascii) :
  Num.is_digit c = true ->
  not_space c = true /\ name_char c = true /\ not_close c = true.
Proof.
  destruct c as [[] [] [] [] [] [] [] []]; intros H;
    try discriminate H; repeat split.
Qed.

Lemma to_uint_nonnil (n : nat) : Nat.to_uint n <> Decimal.Nil.
Proof.
  rewrite <- (DecimalNat.Unsigned.of_to n) at 1.
  rewrite DecimalNat.Unsigned.to_of. apply DecimalFacts.unorm_nonnil.
Qed.

Lemma of_nat_digits (n : nat) :
  Str.of_nat n = NilEmpty.string_of_uint (Nat.to_uint n).
Proof.
  unfold Str.of_nat, NilZero.string_of_uint.
  destruct (Nat.to_uint n) eqn:E; try reflexivity.
  now apply to_uint_nonnil in E.
Qed.

Lemma of_nat_all (p : ascii -> bool) (n : nat) :
  (forall c, Num.is_digit c = true -> p c = true) ->
  all_chars p (Str.of_nat n) = true.
Proof.
  intros H. rewrite of_nat_digits.
  apply (StrFacts.all_chars_impl Num.is_digit); [exact H | apply digits_all].
Qed.

Lemma digits_tail_digit (c : ascii) (acc : Z) (k : nat) (s : string) :
  Num.is_digit c = true ->
  Num.digits_tail acc k (String c s) =
  Num.digits_tail (10 * acc + Num.digit_val c)%Z (S k) s.
Proof. intros H. cbn [Num.digits_tail]. now rewrite H. Qed.

Lemma digit_val_nonneg (c : ascii) : (0 <= Num.digit_val c)%Z.
Proof. unfold Num.digit_val. lia. Qed.

Ltac eval_digit_val :=
  repeat match goal with
         | |- context [Num.digit_val ?c] =>
             let v := eval vm_compute in (Num.digit_val c) in
             change (Num.digit_val c) with v
         end.

Lemma digits_tail_uint (d : Decimal.uint) :
  forall (acc : Z) (k : nat),
    (0 <= acc)%Z ->
    Num.digits_tail acc k (NilEmpty.string_of_uint d) =
    (Z.of_nat (Nat.of_uint_acc d (Z.to_nat acc)),
     k + String.length (NilEmpty.string_of_uint d), EmptyString).
Proof.
  induction d; intros acc k Hacc;
    cbn [NilEmpty.string_of_uint Nat.of_uint_acc String.length];
    [ cbn [Num.digits_tail]; rewrite Z2Nat.id by lia; now rewrite Nat.add_0_r
    | .. ].
  all: rewrite digits_tail_digit by reflexivity;
    rewrite IHd by (pose proof (digit_val_nonneg "0"); eval_digit_val; lia);
    rewrite Nat.tail_mul_spec; eval_digit_val;
    match goal with
    | |- (Z.of_nat (Nat.of_uint_acc _ ?a), ?x, _) =
         (Z.of_nat (Nat.of_uint_acc _ ?b), ?y, _) =>
        replace a with b by lia; replace x with y by lia; reflexivity
    end.
Qed.

Lemma c_rstrip_snoc (a : string) (c : ascii) :
  Num.is_c_space c = false ->
  Num.c_rstrip (a ++ String c "") = (a ++ String c "")%string.
Proof.
  intros Hc. induction a as [|x a IH]; simpl.
  - now rewrite Hc.
  - rewrite IH. destruct (a ++ String c "")%string eqn:E; [|reflexivity].
    now apply StrFacts.snoc_not_empty in E.
Qed.

(** A text between two characters that [int] does not skip is read as it
    is. *)
Lemma c_strip_between (q : ascii) (body : string) :
  Num.is_c_space q = false ->
  Num.c_strip (String q (body ++ String q "")) =
  String q (body ++ String q "").
Proof.
  intros Hq. unfold Num.c_strip. simpl Num.c_lstrip. rewrite Hq.
  change (String q (body ++ String q ""))
    with (String q body ++ String q "")%string.
  now apply c_rstrip_snoc.
Qed.

Lemma c_strip_no_space (s : string) :
  all_chars not_c_space s = true -> Num.c_strip s = s.
Proof.
  intros H. unfold Num.c_strip.
  assert (Hl : Num.c_lstrip s = s).
  { destruct s as [|c s]; [reflexivity|]. simpl in *.
    apply andb_prop in H. destruct H as [Hc _].
    unfold not_c_space in Hc. apply negb_true_iff in Hc. now rewrite Hc. }
  rewrite Hl. clear Hl.
  induction s as [|c s IH]; simpl; [reflexivity|].
  simpl in H. apply andb_prop in H. destruct H as [Hc Hs].
  rewrite (IH Hs). unfold not_c_space in Hc. apply negb_true_iff in Hc.
  rewrite Hc. destruct s; reflexivity.
Qed.

Lemma is_digit_not_c_space (c : ascii) :
  Num.is_digit c = true -> not_c_space c = true.
Proof.
  destruct c as [[] [] [] [] [] [] [] []]; intros H;
    try discriminate H; reflexivity.
Qed.

(** [int] reads the decimal digits of a natural number back. *)
Lemma py_int_of_nat (n : nat) :
  Num.py_int (Str.of_nat n) = Some (Z.of_nat n).
Proof.
  unfold Num.py_int.
  rewrite c_strip_no_space
    by (apply of_nat_all; intros c Hc; now apply is_digit_not_c_space).
  rewrite of_nat_digits.
  rewrite <- (DecimalNat.Unsigned.of_to n) at 2.
  pose proof (to_uint_nonnil n) as Hnil.
  unfold Nat.of_uint.
  destruct (Nat.to_uint n) as [|d|d|d|d|d|d|d|d|d|d]; [now elim Hnil|..];
    cbn [NilEmpty.string_of_uint Nat.of_uint_acc];
    (match goal with
     | |- context [Num.read_sign (String ?c ?s)] =>
         change (Num.read_sign (String c s)) with (false, String c s);
         cbv beta iota;
         change (Num.read_digits (String c s))
           with (Some (Num.digits_tail (Num.digit_val c) 1 s))
     end);
    eval_digit_val;
    rewrite digits_tail_uint by lia;
    rewrite Nat.tail_mul_spec; reflexivity.
Qed.

Lemma of_nat_not_star (n : nat) : String.eqb (Str.of_nat n) "*" = false.
Proof.
  pose proof (of_nat_all Num.is_digit n (fun c H => H)) as H.
  destruct (Str.of_nat n) as [|c s]; [reflexivity|].
  simpl in H. apply andb_prop in H. destruct H as [Hc _].
  apply String.eqb_neq. intros [= -> _]. discriminate Hc.
Qed.

Lemma bracket_component_of_nat (n : nat) :
  bracket_component (Str.of_nat n) = CInt (Z.of_nat n).
Proof.
  unfold bracket_component. now rewrite of_nat_not_star, py_int_of_nat.
Qed.

End ScalarFacts.

Lemma contains_dot_name (s : string) :
  all_chars name_char s = true -> Str.contains "." s = false.
Proof.
  induction s as [|c s IH]; [reflexivity|].
  cbn [all_chars]. intros H. apply andb_prop in H. destruct H as [Hc Hs].
  cbn [Str.contains Str.startswith]. rewrite (IH Hs).
  unfold name_char in Hc. apply andb_prop in Hc. destruct Hc as [Hc _].
  apply negb_true_iff in Hc. rewrite Ascii.eqb_sym, Hc. reflexivity.
Qed.

Lemma not_word_digit_first (c : ascii) (s : string) (words : list string) :
  Num.is_digit c = true ->
  Forall (fun w => match w with
                   | String a _ => Num.is_digit a = false
                   | EmptyString => True
                   end) words ->
  in_words (Str.lower (String c s)) words = false.
Proof.
  intros Hc Hw. unfold in_words. cbn [Str.lower].
  induction Hw as [|w words Hw _ IH]; [reflexivity|].
  cbn [existsb]. rewrite IH, orb_false_r.
  destruct w as [|a w]; [reflexivity|].
  cbn [String.eqb].
  assert (E : Ascii.eqb (Str.lower_char c) a = false).
  { apply Ascii.eqb_neq. intros <-.
    destruct c as [[] [] [] [] [] [] [] []];
      try discriminate Hc; discriminate Hw. }
  now rewrite E.
Qed.

(** X7: The decimal digits of a natural number, when they are no more than
    the interpreter's limit on the digits of an integer literal, are read
    back as that number by both scalar parsers. *)
Theorem decimal_round_trip (n : nat) :
  String.length (Str.of_nat n) <= Num.int_max_str_digits ->
  _parse_value (Str.of_nat n) = VInt (Z.of_nat n) /\
  parse_filter_value (Str.of_nat n) = VInt (Z.of_nat n).
Proof.
  intros _.
  assert (Hstrip : Str.strip (Str.of_nat n) = Str.of_nat n).
  { apply StrFacts.strip_no_space, ScalarFacts.of_nat_all.
    intros c Hc. now apply ScalarFacts.is_digit_classes. }
  assert (Hnum : parse_number (Str.of_nat n) = Some (VInt (Z.of_nat n))).
  { unfold parse_number. rewrite contains_dot_name.
    - now rewrite ScalarFacts.py_int_of_nat.
    - apply ScalarFacts.of_nat_all.
      intros c Hc. now apply ScalarFacts.is_digit_classes. }
  pose proof (ScalarFacts.of_nat_all Num.is_digit n (fun c H => H)) as Hd.
  unfold _parse_value, parse_filter_value. rewrite Hstrip, Hnum.
  destruct (Str.of_nat n) as [|c s] eqn:E.
  - rewrite ScalarFacts.of_nat_digits in E.
    pose proof (ScalarFacts.to_uint_nonnil n) as Hnil.
    destruct (Nat.to_uint n); try discriminate E. now elim Hnil.
  - cbn [all_chars] in Hd. apply andb_prop in Hd. destruct Hd as [Hc _].
    assert (Hq : is_quoted (String c s) = false).
    { unfold is_quoted, wrapped_in. cbn [Str.startswith].
      destruct c as [[] [] [] [] [] [] [] []];
        try discriminate Hc; reflexivity. }
    assert (Hw : forall w, Num.is_digit w = false ->
                 forall t, String.eqb (Str.lower (String c s)) (String w t)
                           = false).
    { intros w Hwd t.
      pose proof (not_word_digit_first c s [String w t] Hc) as H.
      unfold in_words in H. cbn [existsb] in H.
      rewrite orb_false_r in H. apply H. repeat constructor. exact Hwd. }
    unfold in_words. cbn [existsb].
    rewrite Hq, !Hw by reflexivity.
    split; reflexivity.
Qed.

Lemma decimal_round_trip_witness :
  _parse_value (Str.of_nat 2025) = VInt (Z.of_nat 2025) /\
  parse_filter_value (Str.of_nat 2025) = VInt (Z.of_nat 2025).
Proof.
  apply (decimal_round_trip 2025). apply Nat.leb_le. reflexivity.
Defined.

(** X6: A scalar written between two double quotes or two single quotes is
    the text between them, as a string, for both scalar parsers: it is
    never read as a boolean, as null or as a number. *)
Theorem quoted_scalar_is_string (q : ascii) (body : string) :
  q = dquote \/ q = squote ->
  _parse_value (String q (body ++ String q "")) = VStr body /\
  parse_filter_value (String q (body ++ String q "")) = VStr body.
Proof.
  intros Hq.
  assert (Hsp : Str.is_space q = false) by (destruct Hq; subst; reflexivity).
  assert (Hquoted : is_quoted (String q (body ++ String q "")) = true).
  { unfold is_quoted. destruct Hq; subst.
    - now rewrite ScalarFacts.wrapped_between.
    - rewrite ScalarFacts.wrapped_between. apply orb_true_r. }
  pose proof (StrFacts.strip_between q body Hsp) as Hstrip.
  pose proof (ScalarFacts.slice_between q body) as Hslice.
  assert (Hnum : parse_number (String q (body ++ String q "")) = None).
  { unfold parse_number, Num.py_float, Num.py_int.
    rewrite ScalarFacts.c_strip_between
      by (destruct Hq; subst; reflexivity).
    set (rest := (body ++ String q "")%string).
    destruct Hq; subst q;
      destruct (Str.contains "." (String _ rest)); reflexivity. }
  unfold _parse_value, parse_filter_value.
  rewrite Hstrip, Hquoted, Hnum, Hslice.
  split; [|reflexivity].
  set (rest := (body ++ String q "")%string).
  destruct Hq; subst q; reflexivity.
Qed.

Lemma quoted_scalar_is_string_witness :
  _parse_value "'true'" = VStr "true" /\
  parse_filter_value "'true'" = VStr "true".
Proof.
  apply (quoted_scalar_is_string squote "true"). right. reflexivity.
Defined.

(** ** More on [parse_query_path] *)

Module PathFacts.

Lemma flush_acc (components : list component) (current : string) :
  flush components current = components ++ flush [] current.
Proof. destruct current; simpl; [now rewrite app_nil_r | reflexivity]. Qed.

Lemma find_close_unfold (components : list component) (s index_str : string) :
  (fix find_close (s : string) (index_str : string) {struct s}
     : list component :=
     match s with
     | EmptyString =>
         flush (components ++ [bracket_component index_str]) EmptyString
     | String c s' =>
         if Ascii.eqb c "]"%char
         then parse_query_path_from s'
                (components ++ [bracket_component index_str]) EmptyString
         else find_close s' (index_str ++ String c EmptyString)%string
     end) s index_str =
  find_close_from components s index_str.
Proof.
  revert index_str. induction s as [|c s IH]; intros index_str;
    [reflexivity|].
  cbn [find_close_from]. rewrite <- IH. reflexivity.
Qed.

(** One step of the scan. *)
Lemma parse_step (c : ascii) (rest : string) (components : list component)
  (current : string) :
  parse_query_path_from (String c rest) components current =
  if Ascii.eqb c "."%char then
    parse_query_path_from rest (flush components current) EmptyString
  else if Ascii.eqb c "["%char then
    find_close_from (flush components current) rest EmptyString
  else
    parse_query_path_from rest components
      (current ++ String c EmptyString)%string.
Proof.
  cbn [parse_query_path_from].
  destruct (Ascii.eqb c "."%char); [reflexivity|].
  destruct (Ascii.eqb c "["%char); [|reflexivity].
  apply find_close_unfold.
Qed.

(** The components found so far are a prefix of the result. *)
Lemma parse_acc (s : string) :
  (forall components current,
      parse_query_path_from s components current =
      components ++ parse_query_path_from s [] current) /\
  (forall components index_str,
      find_close_from components s index_str =
      components ++ find_close_from [] s index_str).
Proof.
  induction s as [|c s [IHp IHf]]; split.
  - intros components current. simpl. apply flush_acc.
  - intros components index_str. reflexivity.
  - intros components current. rewrite !parse_step.
    destruct (Ascii.eqb c "."%char).
    + rewrite IHp, (IHp (flush [] current)), app_assoc.
      now rewrite <- flush_acc.
    + destruct (Ascii.eqb c "["%char).
      * rewrite IHf, (IHf (flush [] current)), app_assoc.
        now rewrite <- flush_acc.
      * apply IHp.
  - intros components index_str. cbn [find_close_from].
    destruct (Ascii.eqb c "]"%char).
    + rewrite IHp, (IHp ([] ++ _)), app_assoc. reflexivity.
    + apply IHf.
Qed.

(** A run of name characters goes to the current name. *)
Lemma parse_name (a s2 : string) :
  all_chars name_char a = true ->
  forall components current,
    parse_query_path_from (a ++ s2) components current =
    parse_query_path_from s2 components (current ++ a).
Proof.
  induction a as [|c a IH]; intros Ha components current.
  - now rewrite StrFacts.append_nil_r.
  - cbn [all_chars] in Ha. apply andb_prop in Ha. destruct Ha as [Hc Ha].
    unfold name_char in Hc. apply andb_prop in Hc. destruct Hc as [H1 H2].
    apply negb_true_iff in H1, H2.
    cbn [append]. rewrite parse_step, H1, H2, (IH Ha).
    f_equal. now rewrite StrFacts.append_assoc.
Qed.

(** A bracket group is read up to its closing bracket. *)
Lemma find_close_closed (t s2 : string) :
  all_chars not_close t = true ->
  forall components index_str,
    find_close_from components (t ++ String "]" s2) index_str =
    parse_query_path_from s2
      (components ++ [bracket_component (index_str ++ t)]) EmptyString.
Proof.
  induction t as [|c t IH]; intros Ht components index_str.
  - cbn. now rewrite StrFacts.append_nil_r.
  - cbn [all_chars] in Ht. apply andb_prop in Ht. destruct Ht as [Hc Ht].
    unfold not_close in Hc. apply negb_true_iff in Hc.
    cbn [append find_close_from]. rewrite Hc, (IH Ht).
    now rewrite StrFacts.append_assoc.
Qed.

(** A bracket group that is never closed is read to the end. *)
Lemma find_close_open (t : string) :
  all_chars not_close t = true ->
  forall components index_str,
    find_close_from components t index_str =
    components ++ [bracket_component (index_str ++ t)].
Proof.
  induction t as [|c t IH]; intros Ht components index_str.
  - cbn. now rewrite StrFacts.append_nil_r.
  - cbn [all_chars] in Ht. apply andb_prop in Ht. destruct Ht as [Hc Ht].
    unfold not_close in Hc. apply negb_true_iff in Hc.
    cbn [find_close_from]. rewrite Hc, (IH Ht).
    now rewrite StrFacts.append_assoc.
Qed.

Lemma parse_name_only (a : string) :
  all_chars name_char a = true ->
  parse_query_path a = flush [] a.
Proof.
  intros Ha. unfold parse_query_path.
  rewrite <- (StrFacts.append_nil_r a) at 1.
  now rewrite (parse_name a "" Ha).
Qed.

End PathFacts.

(** X9: A name followed by a dot is one field, and the rest of the expression
    is parsed on its own; a name that is empty gives no component, so
    leading and doubled dots are ignored. *)
Theorem parse_query_path_dot (a b : string) :
  all_chars name_char a = true ->
  parse_query_path (a ++ "." ++ b) = flush [] a ++ parse_query_path b.
Proof.
  intros Ha. unfold parse_query_path.
  rewrite (PathFacts.parse_name a _ Ha). cbn [append].
  rewrite PathFacts.parse_step. cbn.
  now rewrite (proj1 (PathFacts.parse_acc b)).
Qed.

Lemma parse_query_path_dot_witness :
  parse_query_path ("data" ++ "." ++ "users[0].name") =
  flush [] "data" ++ parse_query_path "users[0].name".
Proof. apply (parse_query_path_dot "data" "users[0].name"). reflexivity. Defined.

(** X10: A bracket group after a name, with a content no longer than the
    interpreter's limit on the digits of an integer literal: the name is
    one field, the content of the group one component (wildcard, index or
    literal key), and the text after the closing bracket is parsed on its
    own.  A group that is never closed takes the rest of the expression as
    its content. *)
Theorem parse_query_path_bracket (a t b : string) :
  all_chars name_char a = true ->
  all_chars not_close t = true ->
  String.length t <= Num.int_max_str_digits ->
  parse_query_path (a ++ "[" ++ t ++ "]" ++ b) =
    flush [] a ++ bracket_component t :: parse_query_path b /\
  parse_query_path (a ++ "[" ++ t) =
    flush [] a ++ [bracket_component t].
Proof.
  intros Ha Ht _. unfold parse_query_path. split.
  - rewrite (PathFacts.parse_name a _ Ha). cbn [append].
    rewrite PathFacts.parse_step. cbn [Ascii.eqb Bool.eqb].
    rewrite (PathFacts.find_close_closed t b Ht).
    rewrite (proj1 (PathFacts.parse_acc b)), <- app_assoc. reflexivity.
  - rewrite (PathFacts.parse_name a _ Ha). cbn [append].
    rewrite PathFacts.parse_step. cbn [Ascii.eqb Bool.eqb].
    now rewrite (PathFacts.find_close_open t Ht).
Qed.

Lemma parse_query_path_bracket_witness :
  parse_query_path ("users" ++ "[" ++ "first name" ++ "]" ++ ".age") =
    flush [] "users" ++ bracket_component "first name"
      :: parse_query_path ".age" /\
  parse_query_path ("users" ++ "[" ++ "first name") =
    flush [] "users" ++ [bracket_component "first name"].
Proof.
  apply (parse_query_path_bracket "users" "first name" ".age");
    [reflexivity | reflexivity | apply Nat.leb_le; reflexivity].
Defined.

(** ** From [search_data] back to [query_data] *)

Module SearchFacts.

Lemma search_dict_items
  (re_search : string -> string -> bool -> option bool)
  (pattern : string) (ignorecase : bool) (path : string) (d : dict) :
  search_recursive re_search pattern ignorecase (VDict d) path =
  search_items re_search pattern ignorecase path d.
Proof.
  cbn [search_recursive].
  induction d as [|[key value] d IH]; [reflexivity|].
  cbn [search_items]. rewrite <- IH. reflexivity.
Qed.

Lemma lookup_distinct (d : dict) (k : string) (v : Value) :
  distinct_keys d = true -> In (k, v) d -> Dict.lookup k d = Some v.
Proof.
  induction d as [|[k0 v0] d IH]; intros Hd Hin; [destruct Hin|].
  cbn [distinct_keys] in Hd.
  destruct (Dict.lookup k0 d) eqn:E0; [discriminate|].
  cbn [Dict.lookup]. destruct Hin as [[= -> ->]|Hin].
  - now rewrite String.eqb_refl.
  - specialize (IH Hd Hin).
    destruct (String.eqb_spec k0 k) as [->|_]; [congruence | exact IH].
Qed.

Lemma flush_nil (done : list component) (current : string) :
  flush done current = [] -> done = [] /\ current = EmptyString.
Proof.
  destruct current; simpl; [auto|].
  intros H. now apply app_eq_nil in H as [_ [=]].
Qed.

Lemma flush_plain (done : list component) (key : string) :
  plain_key key = true -> flush done key = done ++ [CStr key].
Proof.
  destruct key; [discriminate | reflexivity].
Qed.

Section Reach.

Variable root : Value.

Lemma reaches_root : reaches root EmptyString root.
Proof. exists [], EmptyString. split; reflexivity. Qed.

Lemma reaches_parse (path : string) (obj : Value) :
  reaches root path obj ->
  query_data root (parse_query_path path) = obj.
Proof.
  intros (done & current & Hp & Hq).
  unfold parse_query_path.
  rewrite <- (StrFacts.append_nil_r path), Hp. cbn [parse_query_path_from].
  rewrite <- (app_nil_r (flush done current)). apply Hq.
Qed.

Lemma reaches_key (path : string) (d : dict) (key : string) (v : Value) :
  reaches root path (VDict d) ->
  Dict.lookup key d = Some v ->
  plain_key key = true ->
  reaches root
    match path with
    | EmptyString => key
    | _ => (path ++ "." ++ key)%string
    end v.
Proof.
  intros (done & current & Hp & Hq) Hl Hk.
  assert (Hname : all_chars name_char key = true).
  { unfold plain_key in Hk. apply andb_prop in Hk. destruct Hk as [Hk _].
    now apply andb_prop in Hk. }
  assert (Hstar : String.eqb key "*" = false).
  { unfold plain_key in Hk. apply andb_prop in Hk. destruct Hk as [_ Hk].
    now apply negb_true_iff in Hk. }
  assert (Hstep : forall rest,
             query_data (VDict d) (CStr key :: rest) = query_data v rest).
  { intros rest. cbn [query_data is_star]. now rewrite Hstar, Hl. }
  destruct path as [|c path].
  - assert (E : flush done current = []).
    { specialize (Hp EmptyString). cbn in Hp. now rewrite <- Hp. }
    apply flush_nil in E. destruct E as [-> ->].
    exists [], key. split.
    + intros s2. now rewrite (PathFacts.parse_name key s2 Hname).
    + intros rest. rewrite (flush_plain [] key Hk).
      rewrite <- Hstep. apply (Hq (CStr key :: rest)).
  - cbv iota. set (p := String c path) in *.
    exists (flush done current), key. split.
    + intros s2.
      rewrite !StrFacts.append_assoc, Hp.
      cbn [append]. rewrite PathFacts.parse_step. cbn [Ascii.eqb Bool.eqb].
      now rewrite (PathFacts.parse_name key s2 Hname).
    + intros rest. rewrite (flush_plain _ key Hk), <- app_assoc.
      rewrite <- Hstep. apply Hq.
Qed.

Lemma reaches_index (path : string) (l : list Value) (n : nat)
  (item : Value) :
  reaches root path (VList l) ->
  nth_error l n = Some item ->
  reaches root (path ++ "[" ++ Str.of_nat n ++ "]") item.
Proof.
  intros (done & current & Hp & Hq) Hn.
  exists (flush done current ++ [CInt (Z.of_nat n)]), EmptyString. split.
  - intros s2.
    rewrite !StrFacts.append_assoc, Hp.
    cbn [append]. rewrite PathFacts.parse_step. cbn [Ascii.eqb Bool.eqb].
    rewrite PathFacts.find_close_closed
      by (apply ScalarFacts.of_nat_all; intros c Hc;
          now apply ScalarFacts.is_digit_classes).
    cbn [append]. now rewrite ScalarFacts.bracket_component_of_nat.
  - intros rest. cbn [flush]. rewrite <- app_assoc. cbn [app].
    rewrite Hq. cbn [query_data is_star].
    unfold list_index.
    destruct (Z.leb_spec 0 (Z.of_nat n)); [|lia].
    now rewrite Nat2Z.id, Hn.
Qed.

Variable re_search : string -> string -> bool -> option bool.
Variable pattern : string.
Variable ignorecase : bool.

(** What is claimed of one reported pair. *)
Definition resolves (ps : string * string) : Prop :=
  query_data root (parse_query_path (fst ps)) = VStr (snd ps) /\
  re_search pattern (snd ps) ignorecase = Some true.

Definition sound_at (obj : Value) : Prop :=
  plain_keys obj = true ->
  forall path results,
    reaches root path obj ->
    search_recursive re_search pattern ignorecase obj path = Ok results ->
    Forall resolves results.

Lemma bind_ok {A B : Type} (m : result A) (k : A -> result B) (b : B) :
  bind m k = Ok b -> exists a, m = Ok a /\ k a = Ok b.
Proof. destruct m as [a|e]; simpl; [eauto | discriminate]. Qed.

Lemma sound_enumerate (l : list Value) (path : string) :
  reaches root path (VList l) ->
  forall l' n results,
    (forall j item, nth_error l' j = Some item ->
                    nth_error l (n + j) = Some item) ->
    Forall sound_at l' ->
    forallb plain_keys l' = true ->
    search_enumerate re_search pattern ignorecase path n l' = Ok results ->
    Forall resolves results.
Proof.
  intros Hreach l'. induction l' as [|item l' IH];
    intros n results Hnth Hsound Hplain H.
  - injection H as <-. constructor.
  - cbn [search_enumerate] in H.
    apply bind_ok in H. destruct H as (r & Hr & H).
    apply bind_ok in H. destruct H as (rs & Hrs & H).
    injection H as <-.
    cbn [forallb] in Hplain. apply andb_prop in Hplain.
    destruct Hplain as [Hitem Hplain].
    inversion Hsound as [|? ? Hhere Hthere]; subst.
    apply Forall_app. split.
    + apply (Hhere Hitem _ _ (reaches_index path l n item Hreach
                                 (eq_trans (f_equal (nth_error l)
                                              (eq_sym (Nat.add_0_r n)))
                                           (Hnth 0 item eq_refl))) Hr).
    + apply (IH (S n) rs); try assumption.
      intros j x Hj. replace (S n + j) with (n + S j) by lia.
      apply (Hnth (S j) x Hj).
Qed.

Lemma sound_items (d : dict) (path : string) :
  reaches root path (VDict d) ->
  forall d' results,
    (forall k v, In (k, v) d' -> Dict.lookup k d = Some v) ->
    Forall (fun kv => sound_at (snd kv)) d' ->
    Forall (fun kv => plain_key (fst kv) = true /\
                      plain_keys (snd kv) = true) d' ->
    search_items re_search pattern ignorecase path d' = Ok results ->
    Forall resolves results.
Proof.
  intros Hreach d'. induction d' as [|[key value] d' IH];
    intros results Hlook Hsound Hplain H.
  - injection H as <-. constructor.
  - cbn [search_items] in H.
    apply bind_ok in H. destruct H as (r & Hr & H).
    apply bind_ok in H. destruct H as (rs & Hrs & H).
    injection H as <-.
    inversion Hsound as [|? ? Hhere Hthere]; subst.
    inversion Hplain as [|? ? [Hk Hv] Hrest]; subst.
    cbn [fst snd] in *.
    apply Forall_app. split.
    + apply (Hhere Hv _ _
               (reaches_key path d key value Hreach
                  (Hlook key value (or_introl eq_refl)) Hk) Hr).
    + apply (IH rs); try assumption.
      intros k v Hin. apply Hlook. now right.
Qed.

Lemma plain_keys_dict (d : dict) :
  plain_keys (VDict d) = true ->
  distinct_keys d = true /\
  Forall (fun kv => plain_key (fst kv) = true /\
                    plain_keys (snd kv) = true) d.
Proof.
  cbn [plain_keys]. intros H. apply andb_prop in H. destruct H as [Hd H].
  split; [exact Hd|]. clear Hd.
  induction d as [|[k x] d IH]; [constructor|].
  apply andb_prop in H. destruct H as [H Hrest].
  apply andb_prop in H. destruct H as [Hk Hx].
  constructor; [split; assumption | now apply IH].
Qed.

Lemma search_sound (obj : Value) : sound_at obj.
Proof.
  induction obj as [ | b | z | f | s | l IH | d IH] using Value_induction;
    intros Hplain path results Hreach H;
    try (injection H as <-; constructor).
  - cbn [search_recursive] in H.
    destruct (re_search pattern s ignorecase) as [[|]|] eqn:E;
      try discriminate; injection H as <-; constructor; [|constructor].
    split; [|exact E]. cbn [fst snd]. now apply reaches_parse.
  - rewrite search_list_enumerate in H.
    apply (sound_enumerate l path Hreach l 0 results); auto.
  - rewrite search_dict_items in H.
    apply plain_keys_dict in Hplain. destruct Hplain as [Hd Hp].
    apply (sound_items d path Hreach d results); auto.
    intros k v Hin. now apply lookup_distinct.
Qed.

End Reach.

End SearchFacts.

(** X1: Every pair [(path, text)] that [search_data] reports can be handed
    back to the path evaluator: in a document whose mappings have plain
    keys (not empty, no dot, no opening bracket, not ["*"]), parsing
    [path] and evaluating it against the document returns the string
    [text], and [text] matches the pattern. *)
Theorem search_paths_resolve
  (re_search : string -> string -> bool -> option bool)
  (root : Value) (pattern : string) (case_sensitive : bool)
  (results : list (string * string)) :
  plain_keys root = true ->
  search_data re_search root pattern case_sensitive = Ok results ->
  Forall (fun ps =>
            query_data root (parse_query_path (fst ps)) = VStr (snd ps) /\
            re_search pattern (snd ps) (negb case_sensitive) = Some true)
         results.
Proof.
  intros Hplain H.
  apply (SearchFacts.search_sound root re_search pattern
           (negb case_sensitive) root Hplain EmptyString results);
    [apply SearchFacts.reaches_root | exact H].
Qed.

Lemma search_paths_resolve_witness :
  let root :=
    VDict [("users", VList [VDict [("name", VStr "Ann");
                                   ("mail", VStr "ann@example.com")];
                            VDict [("mail", VStr "bob@example.com")]])] in
  Forall (fun ps =>
            query_data root (parse_query_path (fst ps)) = VStr (snd ps) /\
            literal_search "@example" (snd ps) (negb false) = Some true)
         [("users[0].mail", "ann@example.com");
          ("users[1].mail", "bob@example.com")].
Proof.
  intros root.
  apply (search_paths_resolve literal_search root "@example" false);
    reflexivity.
Defined.

(** ** More on the YAML parser *)

Module YAMLShape.
Import YAMLParser.

Lemma last_is_space_rstrip (s : string) :
  last_is_space (Str.rstrip s) = false.
Proof.
  induction s as [|c s IH]; [reflexivity|].
  cbn [Str.rstrip]. destruct (Str.rstrip s) as [|x r] eqn:E.
  - destruct (Str.is_space c) eqn:Hc; [reflexivity | simpl; exact Hc].
  - exact IH.
Qed.

Lemma last_is_space_app (a b : string) :
  b <> EmptyString -> last_is_space (a ++ b) = last_is_space b.
Proof.
  intros Hb. induction a as [|c a IH]; [reflexivity|].
  cbn [append last_is_space]. rewrite IH.
  destruct (a ++ b)%string eqn:E; [|reflexivity].
  destruct a; simpl in E; [now elim Hb | discriminate].
Qed.

Lemma last_is_space_all (b : string) :
  b <> EmptyString -> all_chars Str.is_space b = true ->
  last_is_space b = true.
Proof.
  induction b as [|c b IH]; intros Hb H; [now elim Hb|].
  cbn [all_chars] in H. apply andb_prop in H. destruct H as [Hc H].
  destruct b as [|c' b]; [exact Hc|].
  change (last_is_space (String c (String c' b)))
    with (last_is_space (String c' b)).
  apply IH; [discriminate | exact H].
Qed.

Lemma rstrip_empty (s : string) :
  Str.rstrip s = EmptyString -> all_chars Str.is_space s = true.
Proof.
  induction s as [|c s IH]; [reflexivity|].
  cbn [Str.rstrip]. destruct (Str.rstrip s) as [|x r]; [|discriminate].
  destruct (Str.is_space c) eqn:Hc; [|discriminate].
  intros _. cbn [all_chars]. now rewrite Hc, IH.
Qed.

Lemma lstrip_spaces (s : string) :
  all_chars Str.is_space (Str.lstrip s) = true ->
  all_chars Str.is_space s = true.
Proof.
  induction s as [|c s IH]; [reflexivity|].
  cbn [Str.lstrip all_chars]. destruct (Str.is_space c) eqn:Hc.
  - exact IH.
  - cbn [all_chars]. now rewrite Hc.
Qed.

Lemma strip_empty (s : string) :
  Str.strip s = EmptyString -> all_chars Str.is_space s = true.
Proof.
  intros H. now apply lstrip_spaces, rstrip_empty.
Qed.

(** After the first [": "] of a stripped line there is always some text
    that is not white space: the line cannot end with the separator, whose
    second character [strip] would have removed. *)
Lemma inline_value_present (line key value : string) :
  Str.split_once ": " (Str.strip line) = Some (key, value) ->
  Str.strip value <> EmptyString.
Proof.
  intros H Hv. apply StrFacts.split_once_app in H.
  pose proof (last_is_space_rstrip (Str.lstrip line)) as Hlast.
  fold (Str.strip line) in Hlast. rewrite H in Hlast.
  apply strip_empty in Hv.
  destruct value as [|c value].
  - rewrite last_is_space_app in Hlast by discriminate. discriminate Hlast.
  - rewrite <- StrFacts.append_assoc in Hlast.
    rewrite last_is_space_app in Hlast by discriminate.
    rewrite last_is_space_all in Hlast; [discriminate | discriminate | exact Hv].
Qed.

Lemma _parse_value_scalar (value : string) :
  is_scalar (_parse_value value) = true.
Proof.
  unfold _parse_value, parse_number.
  repeat match goal with
         | |- context [if ?b then _ else _] => destruct b
         end; try reflexivity;
    match goal with
    | |- context [Num.py_float ?s] => destruct (Num.py_float s)
    | |- context [Num.py_int ?s] => destruct (Num.py_int s)
    end; simpl;
    repeat match goal with
           | |- context [if ?b then _ else _] => destruct b
           end; reflexivity.
Qed.

Lemma list_item_flat (stripped : string) :
  flat_item (list_item stripped) = true.
Proof.
  unfold list_item.
  destruct (Str.split_once ": " (Str.strip (Str.drop 2 stripped)))
    as [[key val]|].
  - cbn [flat_item]. apply _parse_value_scalar.
  - pose proof (_parse_value_scalar (Str.strip (Str.drop 2 stripped))) as H.
    destruct (_parse_value (Str.strip (Str.drop 2 stripped)));
      try discriminate H; reflexivity.
Qed.

Lemma lookup_set_same (key : string) (v : Value) (d : dict) :
  Dict.lookup key (Dict.set key v d) = Some v.
Proof.
  induction d as [|[k w] d IH]; cbn [Dict.set Dict.lookup].
  - now rewrite String.eqb_refl.
  - destruct (String.eqb k key) eqn:E; cbn [Dict.lookup]; rewrite E;
      [reflexivity | exact IH].
Qed.

Lemma lookup_set_other (key key' : string) (v : Value) (d : dict) :
  key <> key' ->
  Dict.lookup key' (Dict.set key v d) = Dict.lookup key' d.
Proof.
  intros Hne. induction d as [|[k w] d IH]; cbn [Dict.set Dict.lookup].
  - apply String.eqb_neq in Hne. now rewrite Hne.
  - destruct (String.eqb_spec k key) as [->|Hk]; cbn [Dict.lookup].
    + apply String.eqb_neq in Hne. now rewrite Hne.
    + now rewrite IH.
Qed.

Lemma distinct_set (key : string) (v : Value) (d : dict) :
  distinct_keys d = true -> distinct_keys (Dict.set key v d) = true.
Proof.
  induction d as [|[k w] d IH]; intros H; [reflexivity|].
  cbn [distinct_keys] in H.
  destruct (Dict.lookup k d) eqn:E; [discriminate|].
  cbn [Dict.set].
  destruct (String.eqb_spec k key) as [->|Hk]; cbn [distinct_keys].
  - now rewrite E.
  - rewrite lookup_set_other by congruence. rewrite E. now apply IH.
Qed.

Lemma scalar_set (key : string) (v : Value) (d : dict) :
  is_scalar v = true ->
  scalar_values d = true -> scalar_values (Dict.set key v d) = true.
Proof.
  intros Hv. unfold scalar_values.
  induction d as [|[k w] d IH]; intros H; cbn [Dict.set forallb snd].
  - now rewrite Hv.
  - cbn [forallb snd] in H. apply andb_prop in H. destruct H as [Hw H].
    destruct (String.eqb k key); cbn [forallb snd].
    + now rewrite Hv, H.
    + now rewrite Hw, IH.
Qed.

(** What the loop keeps true of its local variables. *)
Definition shaped (st : locals) : Prop :=
  current_key st = None /\
  scalar_values (result st) = true /\
  distinct_keys (result st) = true /\
  forallb flat_item (current_list st) = true.

Lemma shaped_initial : shaped initial.
Proof. repeat split. Qed.

Lemma parse_loop_shaped (fuel : nat) :
  forall lines start_indent st st',
    parse_loop fuel lines start_indent st = Some st' ->
    shaped st -> shaped st'.
Proof.
  induction fuel as [|fuel IH]; intros lines start_indent st st' H Hst;
    [discriminate|].
  cbn [parse_loop] in H.
  destruct Hst as (Hkey & Hres & Hdis & Hlist).
  assert (Hnext : shaped (next st)) by (repeat split; assumption).
  destruct (nth_error lines (i st)) as [line|];
    [|injection H as <-; repeat split; assumption].
  destruct (is_skipped line); [exact (IH _ _ _ _ H Hnext)|].
  destruct (indent_of line <? start_indent);
    [injection H as <-; repeat split; assumption|].
  destruct (start_indent <? indent_of line).
  - unfold pending_key in H. rewrite Hkey in H.
    exact (IH _ _ _ _ H Hnext).
  - destruct (Str.startswith "- " (Str.strip line)).
    + apply (IH _ _ _ _ H). repeat split; try assumption.
      cbn [current_list]. rewrite forallb_app, Hlist. cbn [forallb].
      now rewrite list_item_flat.
    + destruct (Str.split_once ": " (Str.strip line)) as [[key value]|] eqn:E;
        [|exact (IH _ _ _ _ H Hnext)].
      destruct (Str.strip value) eqn:Ev.
      * now apply inline_value_present in E.
      * apply (IH _ _ _ _ H). repeat split; try assumption.
        -- cbn [result]. apply scalar_set; [apply _parse_value_scalar | exact Hres].
        -- cbn [result]. now apply distinct_set.
Qed.

Lemma finish_flat (st : locals) :
  shaped st -> flat_document (fst (finish st)) = true.
Proof.
  intros (Hkey & Hres & Hdis & Hlist). unfold finish.
  destruct (in_list st); cbn [fst flat_document]; [exact Hlist|].
  destruct (result st) eqn:E; [reflexivity|].
  cbn [flat_document]. now rewrite Hres, Hdis.
Qed.

End YAMLShape.

(** X5: The branch of [_parse_lines] that waits for a nested block is never
    entered: a line with a [": "] always carries an inline value, so
    [current_key] is never set, and the lines of a deeper block are
    skipped. *)
Theorem yaml_no_pending_key (fuel : nat) (lines : list string)
  (start_indent : nat) (st st' : YAMLParser.locals) :
  YAMLParser.parse_loop fuel lines start_indent st = Some st' ->
  YAMLParser.current_key st = None ->
  YAMLParser.current_key st' = None.
Proof.
  revert lines start_indent st st'.
  induction fuel as [|fuel IH]; intros lines start_indent st st' H Hkey;
    [discriminate|].
  cbn [YAMLParser.parse_loop] in H.
  destruct (nth_error lines (YAMLParser.i st)) as [line|];
    [|now injection H as <-].
  destruct (YAMLParser.is_skipped line); [exact (IH _ _ _ _ H Hkey)|].
  destruct (YAMLParser.indent_of line <? start_indent);
    [now injection H as <-|].
  destruct (start_indent <? YAMLParser.indent_of line).
  - unfold YAMLParser.pending_key in H. rewrite Hkey in H.
    exact (IH _ _ _ _ H Hkey).
  - destruct (Str.startswith "- " (Str.strip line));
      [exact (IH _ _ _ _ H Hkey)|].
    destruct (Str.split_once ": " (Str.strip line)) as [[key value]|] eqn:E;
      [|exact (IH _ _ _ _ H Hkey)].
    destruct (Str.strip value) eqn:Ev.
    + now apply YAMLShape.inline_value_present in E.
    + exact (IH _ _ _ _ H Hkey).
Qed.

Lemma yaml_no_pending_key_witness :
  YAMLParser.current_key
    (YAMLParser.mkLocals [("name", VStr "Alice")] [] None 4 false) = None.
Proof.
  apply (yaml_no_pending_key 9 ["name: Alice"; "tags:"; "  - x"; "  - y"] 0
           YAMLParser.initial); reflexivity.
Defined.

(** X4: Every document that [YAMLParser.parse] returns is flat: [None], a
    mapping with distinct keys whose values are all scalars, or a list
    whose items are scalars or one-key mappings with a scalar value. *)
Theorem yaml_document_is_flat (text : string) :
  exists v, YAMLParser.parse text = Some v /\ flat_document v = true.
Proof.
  unfold YAMLParser.parse, YAMLParser._parse_lines.
  destruct (YAMLFacts.parse_loop_total (Str.split_lines (Str.strip text)) 0)
    as (st & E & _).
  rewrite E. cbn [option_map]. eexists. split; [reflexivity|].
  apply YAMLShape.finish_flat.
  exact (YAMLShape.parse_loop_shaped _ _ _ _ _ E YAMLShape.shaped_initial).
Qed.

(** A key without an inline value and the block under it are dropped. *)
Example yaml_nested_block_dropped :
  YAMLParser.parse "name: Alice
age: 30
tags:
  - x
  - y
" = Some (VDict [("name", VStr "Alice"); ("age", VInt 30)]).
Proof. vm_compute. reflexivity. Qed.

(** ** The filter expression *)

Module FilterFacts.

Lemma operand_not_op (q0 c : ascii) :
  op_char q0 = true -> operand_char c = true -> Ascii.eqb q0 c = false.
Proof.
  intros Hq Hc. apply Ascii.eqb_neq. intros <-.
  unfold operand_char in Hc. now rewrite Hq in Hc.
Qed.

Lemma startswith_clean (q0 : ascii) (q' s : string) :
  op_char q0 = true -> all_chars operand_char s = true ->
  Str.startswith (String q0 q') s = false.
Proof.
  intros Hq Hs. destruct s as [|c s]; [reflexivity|].
  cbn [all_chars] in Hs. apply andb_prop in Hs. destruct Hs as [Hc _].
  cbn [Str.startswith]. now rewrite (operand_not_op q0 c Hq Hc).
Qed.

Lemma contains_clean (q0 : ascii) (q' s : string) :
  op_char q0 = true -> all_chars operand_char s = true ->
  Str.contains (String q0 q') s = false.
Proof.
  intros Hq. induction s as [|c s IH]; intros Hs; [reflexivity|].
  cbn [Str.contains]. rewrite (startswith_clean q0 q' _ Hq Hs).
  cbn [all_chars] in Hs. apply andb_prop in Hs. destruct Hs as [_ Hs].
  now apply IH.
Qed.

(** An operator is not found inside a text without operator characters
    that stands in front. *)
Lemma contains_after_clean (q0 : ascii) (q' key s : string) :
  op_char q0 = true -> all_chars operand_char key = true ->
  Str.contains (String q0 q') (key ++ s) = Str.contains (String q0 q') s.
Proof.
  intros Hq. induction key as [|c key IH]; intros Hk; [reflexivity|].
  cbn [all_chars] in Hk. apply andb_prop in Hk. destruct Hk as [Hc Hk].
  cbn [append Str.contains Str.startswith].
  rewrite (operand_not_op q0 c Hq Hc). cbn [andb orb]. now apply IH.
Qed.

Lemma split_once_after_clean (q0 : ascii) (q' key s : string) :
  op_char q0 = true -> all_chars operand_char key = true ->
  Str.split_once (String q0 q') (key ++ s) =
  match Str.split_once (String q0 q') s with
  | Some (a, b) => Some ((key ++ a)%string, b)
  | None => None
  end.
Proof.
  intros Hq. induction key as [|c key IH]; intros Hk.
  - cbn [append]. now destruct (Str.split_once (String q0 q') s) as [[a b]|].
  - cbn [all_chars] in Hk. apply andb_prop in Hk. destruct Hk as [Hc Hk].
    cbn [append Str.split_once Str.startswith].
    rewrite (operand_not_op q0 c Hq Hc). cbn [andb].
    rewrite (IH Hk).
    now destruct (Str.split_once (String q0 q') s) as [[a b]|].
Qed.

Lemma contains_cons (q : string) (a : ascii) (s : string) :
  Str.contains q (String a s) =
  Str.startswith q (String a s) || Str.contains q s.
Proof. reflexivity. Qed.

Lemma startswith_cons (x a : ascii) (q s : string) :
  Str.startswith (String x q) (String a s) =
  Ascii.eqb x a && Str.startswith q s.
Proof. reflexivity. Qed.

Lemma find_operator_cons (op : string) (ops : list string)
  (filter_expr : string) :
  find_operator (op :: ops) filter_expr =
  match Str.split_once op filter_expr with
  | Some (key, value) => Some (op, Str.strip key, Str.strip value)
  | None => find_operator ops filter_expr
  end.
Proof. reflexivity. Qed.

Ltac absent_operator Hkey Hlit :=
  apply split_once_contains;
  rewrite contains_after_clean by first [reflexivity | exact Hkey];
  cbn [append];
  rewrite ?contains_cons, ?startswith_cons;
  rewrite ?startswith_clean by first [reflexivity | exact Hlit];
  rewrite ?contains_clean by first [reflexivity | exact Hlit];
  reflexivity.

End FilterFacts.

(** X15: A well-formed expression is split where it should be: when neither
    the key nor the literal contains an operator character, the expression
    [key op literal] is recognised with that operator, for each of the
    seven operators (the two-character ones are not mistaken for [>], [<]
    or for one another). *)
Theorem find_operator_well_formed (op key lit : string) :
  In op operators ->
  all_chars operand_char key = true ->
  all_chars operand_char lit = true ->
  find_operator operators (key ++ op ++ lit) =
  Some (op, Str.strip key, Str.strip lit).
Proof.
  intros Hop Hkey Hlit. unfold operators in *. cbn [In] in Hop.
  assert (Hfound : forall q0 q',
             op_char q0 = true ->
             In (String q0 q') ["=="; "!="; ">="; "<="; ">"; "<"; "~"] ->
             Str.split_once (String q0 q') (key ++ String q0 q' ++ lit) =
             Some (key, lit)).
  { intros q0 q' Hq Hin.
    rewrite FilterFacts.split_once_after_clean by assumption.
    assert (E : Str.split_once (String q0 q') (String q0 q' ++ lit) =
                Some (EmptyString, lit)).
    { cbn [In] in Hin.
      repeat (destruct Hin as [[= <- <-]|Hin];
              [cbn; now rewrite ?Ascii.eqb_refl|]).
      destruct Hin. }
    rewrite E. now rewrite StrFacts.append_nil_r. }
  repeat (destruct Hop as [<-|Hop];
    [ repeat (rewrite FilterFacts.find_operator_cons;
              first
                [ rewrite Hfound by (first [reflexivity | cbn; tauto]);
                  reflexivity
                | match goal with
                  | |- context [Str.split_once ?q (key ++ ?o ++ lit)] =>
                      let E := fresh "E" in
                      assert (E : Str.split_once q (key ++ o ++ lit) = None)
                        by FilterFacts.absent_operator Hkey Hlit;
                      rewrite E; clear E
                  end ])
    | ]).
  destruct Hop.
Qed.

Lemma find_operator_well_formed_witness :
  find_operator operators ("age " ++ ">=" ++ " 25") =
  Some (">=", Str.strip "age ", Str.strip " 25").
Proof.
  apply (find_operator_well_formed ">=" "age " " 25");
    [cbn; tauto | reflexivity | reflexivity].
Defined.

(** ** What [search_data] reports *)

Module LeafFacts.

Section Leaves.

Variable re_search : string -> string -> bool -> option bool.
Variable pattern : string.
Variable ignorecase : bool.

(** The outcome of a search below [v]: the texts reported are the string
    leaves that match, in order; an exception is the one of [re.search],
    raised on a string leaf. *)
Definition outcome_ok (v : Value) (r : result (list (string * string)))
  : Prop :=
  match r with
  | Ok results =>
      map snd results =
      filter (matches re_search pattern ignorecase) (string_leaves v)
  | Raise e =>
      e = ReError /\
      exists s, In s (string_leaves v) /\
                re_search pattern s ignorecase = None
  end.

Lemma outcome_app (x rest_v : Value) (leaves_all : Value)
  (rx rrest : result (list (string * string))) :
  string_leaves leaves_all = string_leaves x ++ string_leaves rest_v ->
  outcome_ok x rx -> outcome_ok rest_v rrest ->
  outcome_ok leaves_all (r <- rx ;; rs <- rrest ;; Ok (r ++ rs)).
Proof.
  intros Hl Hx Hrest. unfold outcome_ok in *. rewrite Hl.
  destruct rx as [r|e]; cbn [bind].
  - destruct rrest as [rs|e]; cbn [bind].
    + now rewrite map_app, filter_app, Hx, Hrest.
    + destruct Hrest as (He & s & Hin & Hs). split; [exact He|].
      exists s. split; [apply in_or_app; now right | exact Hs].
  - destruct Hx as (He & s & Hin & Hs). split; [exact He|].
    exists s. split; [apply in_or_app; now left | exact Hs].
Qed.

Lemma outcome_enumerate (l : list Value) :
  Forall (fun v => forall path,
              outcome_ok v (search_recursive re_search pattern ignorecase
                              v path)) l ->
  forall path n,
    outcome_ok (VList l)
      (search_enumerate re_search pattern ignorecase path n l).
Proof.
  induction 1 as [|x l Hx _ IH]; intros path n; [reflexivity|].
  cbn [search_enumerate].
  apply (outcome_app x (VList l)); [reflexivity | apply Hx | apply IH].
Qed.

Lemma outcome_items (d : dict) :
  Forall (fun kv => forall path,
              outcome_ok (snd kv)
                (search_recursive re_search pattern ignorecase
                   (snd kv) path)) d ->
  forall path,
    outcome_ok (VDict d)
      (search_items re_search pattern ignorecase path d).
Proof.
  induction 1 as [|[k x] d Hx _ IH]; intros path; [reflexivity|].
  cbn [search_items].
  apply (outcome_app x (VDict d)); [reflexivity | apply Hx | apply IH].
Qed.

Lemma outcome_search (v : Value) :
  forall path,
    outcome_ok v (search_recursive re_search pattern ignorecase v path).
Proof.
  induction v as [ | b | z | f | s | l IH | d IH] using Value_induction;
    intros path; try reflexivity.
  - cbn [search_recursive].
    destruct (re_search pattern s ignorecase) as [[|]|] eqn:E;
      cbn [outcome_ok map snd string_leaves filter]; unfold matches;
      rewrite ?E; try reflexivity.
    split; [reflexivity|]. exists s. split; [now left | exact E].
  - rewrite search_list_enumerate. now apply outcome_enumerate.
  - rewrite SearchFacts.search_dict_items. now apply outcome_items.
Qed.

End Leaves.

End LeafFacts.

(** X2: The texts that a search reports are exactly the string leaves of the
    document that match the pattern, in the order of a depth-first walk:
    no matching leaf is left out and nothing else is reported. *)
Theorem search_reports_matching_leaves
  (re_search : string -> string -> bool -> option bool)
  (data : Value) (pattern : string) (case_sensitive : bool)
  (results : list (string * string)) :
  search_data re_search data pattern case_sensitive = Ok results ->
  map snd results =
  filter (matches re_search pattern (negb case_sensitive))
         (string_leaves data).
Proof.
  intros H.
  pose proof (LeafFacts.outcome_search re_search pattern
                (negb case_sensitive) data EmptyString) as Ho.
  unfold search_data in H. rewrite H in Ho. exact Ho.
Qed.

Lemma search_reports_matching_leaves_witness :
  map snd [("a", "Hello"); ("c[1]", "yellow")] =
  filter (matches literal_search "ELL" (negb false))
         (string_leaves
            (VDict [("a", VStr "Hello"); ("b", VInt 3);
                    ("c", VList [VStr "no"; VStr "yellow"])])).
Proof.
  apply (search_reports_matching_leaves literal_search
           (VDict [("a", VStr "Hello"); ("b", VInt 3);
                   ("c", VList [VStr "no"; VStr "yellow"])]) "ELL" false).
  reflexivity.
Defined.



(** ** Statistics of integer data *)

Module StatsFacts.

Lemma collect_numbers_ints (l : list Z) :
  collect_numbers (VList (map VInt l)) = map VInt l.
Proof.
  cbn [collect_numbers].
  induction l as [|z l IH]; [reflexivity|].
  cbn [map]. rewrite IH. reflexivity.
Qed.

Lemma sum_from_ints (l : list Z) (acc : Z) :
  Stats.sum_from (Cmp.NInt acc) (map VInt l) =
  Ok (Cmp.NInt (fold_left Z.add l acc)).
Proof.
  revert acc. induction l as [|z l IH]; intros acc; [reflexivity|].
  cbn [map Stats.sum_from Cmp.as_num Stats.add bind]. apply IH.
Qed.

Lemma extreme_min (l : list Z) (best : Z) :
  Stats.extreme Cmp.OLt (VInt best) (map VInt l) =
  VInt (fold_left Z.min l best).
Proof.
  revert best. induction l as [|z l IH]; intros best; [reflexivity|].
  cbn [map Stats.extreme fold_left].
  cbn [Cmp.py_ord Cmp.as_num Cmp.num_compare Cmp.ord_test].
  destruct (Z.compare_spec z best); rewrite IH; f_equal; f_equal; lia.
Qed.

Lemma extreme_max (l : list Z) (best : Z) :
  Stats.extreme Cmp.OGt (VInt best) (map VInt l) =
  VInt (fold_left Z.max l best).
Proof.
  revert best. induction l as [|z l IH]; intros best; [reflexivity|].
  cbn [map Stats.extreme fold_left].
  cbn [Cmp.py_ord Cmp.as_num Cmp.num_compare Cmp.ord_test].
  destruct (Z.compare_spec z best); rewrite IH; f_equal; f_equal; lia.
Qed.

End StatsFacts.

(** X17: On a list of integers the statistics are exact: the count is the
    length, the sum the integer sum, the minimum and the maximum the least
    and the greatest element, with no rounding; the average is that sum
    divided by the count, and the division is the only step that can raise
    ([OverflowError], when the quotient is too large for a float). *)
Theorem stats_of_integers (z : Z) (zs : list Z) :
  Stats.calculate_stats (VList (map VInt (z :: zs))) =
  (avg <- Stats.truediv (Cmp.NInt (fold_left Z.add (z :: zs) 0%Z))
            (S (List.length zs)) ;;
   Ok (VDict [("count", VInt (Z.of_nat (S (List.length zs))));
              ("sum", VInt (fold_left Z.add (z :: zs) 0%Z));
              ("avg", VFloat avg);
              ("min", VInt (fold_left Z.min zs z));
              ("max", VInt (fold_left Z.max zs z))])).
Proof.
  unfold Stats.calculate_stats.
  rewrite StatsFacts.collect_numbers_ints. cbn [map].
  unfold Stats.sum.
  change (VInt z :: map VInt zs) with (map VInt (z :: zs)).
  rewrite StatsFacts.sum_from_ints. cbn [bind].
  rewrite StatsFacts.extreme_min, StatsFacts.extreme_max.
  cbn [List.length map]. rewrite length_map. reflexivity.
Qed.

(** ** [format_output] and [main] *)

Module OutputFacts.

Section Rows.

Variable py_str : Value -> string.

Lemma csv_rows_dicts (headers : list string) (items : list Value) :
  forallb is_dict items = true \/ headers = [] ->
  exists rows,
    csv_rows py_str headers items = Some rows /\
    List.length rows = List.length items /\
    Forall (fun row => List.length row = List.length headers) rows.
Proof.
  intros H. induction items as [|item items IH].
  - exists []. repeat split. constructor.
  - assert (Hrest : forallb is_dict items = true \/ headers = []).
    { destruct H as [H|H]; [|now right]. left.
      cbn [forallb] in H. now apply andb_prop in H. }
    destruct (IH Hrest) as (rows & E & Hlen & Hrows).
    assert (Hrow : exists row, csv_row py_str headers item = Some row /\
                               List.length row = List.length headers).
    { destruct H as [H| ->].
      - cbn [forallb] in H. apply andb_prop in H. destruct H as [Hitem _].
        destruct item; try discriminate Hitem.
        eexists. split; [reflexivity | apply length_map].
      - destruct item; eexists; split; reflexivity. }
    destruct Hrow as (row & Er & Hl).
    cbn [csv_rows]. rewrite Er, E.
    eexists. split; [reflexivity|]. split.
    + cbn [List.length]. now rewrite Hlen.
    + constructor; assumption.
Qed.

Lemma csv_rows_not_dict (headers : list string) (items : list Value) :
  headers <> [] ->
  forallb is_dict items = false ->
  csv_rows py_str headers items = None.
Proof.
  intros Hh. induction items as [|item items IH]; intros H;
    [discriminate H|].
  cbn [forallb] in H. cbn [csv_rows].
  destruct headers as [|h headers]; [now elim Hh|].
  destruct item; try reflexivity.
  cbn [is_dict andb] in H. cbn [csv_row]. now rewrite (IH H).
Qed.

End Rows.



End OutputFacts.

(** X18: The CSV format of a list whose first element is a mapping.  When
    every element is a mapping, or the first one has no key, the output is
    a header line with the keys of the first element, then one line per
    element with one field per header.  When the first mapping has a key
    and some element is not a mapping, the call raises [AttributeError]
    and gives no output at all. *)
Theorem csv_output
  (json_dumps : Value -> option nat -> bool -> string)
  (py_str : Value -> string)
  (d : dict) (rest : list Value) (pretty : bool) :
  (forallb is_dict rest = true \/ d = [] ->
   exists rows,
     format_output json_dumps py_str (VList (VDict d :: rest)) "csv" pretty =
       Text (join (String "010"%char EmptyString)
               (join "," (map fst d) :: map (join ",") rows)) /\
     List.length rows = S (List.length rest) /\
     Forall (fun row => List.length row = List.length d) rows) /\
  (d <> [] -> forallb is_dict rest = false ->
   format_output json_dumps py_str (VList (VDict d :: rest)) "csv" pretty =
     AttributeError).
Proof.
  split.
  - intros H.
    destruct (OutputFacts.csv_rows_dicts py_str (map fst d) (VDict d :: rest))
      as (rows & E & Hlen & Hrows).
    { destruct H as [H| ->]; [left; exact H | right; reflexivity]. }
    exists rows. split; [|split].
    + cbn [format_output first_dict String.eqb Ascii.eqb Bool.eqb].
      cbv iota. now rewrite E.
    + exact Hlen.
    + rewrite length_map in Hrows. exact Hrows.
  - intros Hd H.
    cbn [format_output first_dict String.eqb Ascii.eqb Bool.eqb].
    cbv iota.
    rewrite (OutputFacts.csv_rows_not_dict py_str (map fst d)
               (VDict d :: rest) (fun E => Hd (map_eq_nil _ _ E)));
      [reflexivity | exact H].
Qed.

Lemma csv_output_witness :
  (exists rows,
     format_output (fun _ _ _ => "") (fun _ => "v")
       (VList [VDict [("a", VInt 1); ("b", VInt 2)]; VDict [("a", VInt 3)]])
       "csv" true =
       Text (join (String "010"%char EmptyString)
               (join "," (map fst [("a", VInt 1); ("b", VInt 2)])
                  :: map (join ",") rows)) /\
     List.length rows = S (List.length [VDict [("a", VInt 3)]]) /\
     Forall (fun row => List.length row =
                        List.length [("a", VInt 1); ("b", VInt 2)]) rows) /\
  (exists rows,
     format_output (fun _ _ _ => "") (fun _ => "v")
       (VList [VDict []; VInt 1]) "csv" true =
       Text (join (String "010"%char EmptyString)
               (join "," (map fst (@nil (string * Value)))
                  :: map (join ",") rows)) /\
     List.length rows = S (List.length [VInt 1]) /\
     Forall (fun row => List.length row =
                        List.length (@nil (string * Value))) rows) /\
  format_output (fun _ _ _ => "") (fun _ => "v")
    (VList [VDict [("a", VInt 1)]; VInt 7]) "csv" true = AttributeError.
Proof.
  split; [|split].
  - apply (csv_output (fun _ _ _ => "") (fun _ => "v")
             [("a", VInt 1); ("b", VInt 2)] [VDict [("a", VInt 3)]] true).
    left. reflexivity.
  - apply (csv_output (fun _ _ _ => "") (fun _ => "v")
             [] [VInt 1] true).
    right. reflexivity.
  - apply (csv_output (fun _ _ _ => "") (fun _ => "v")
             [("a", VInt 1)] [VInt 7] true); [discriminate | reflexivity].
Defined.

(** The empty first mapping: no header, no call of [item.get], and the
    output is the empty lines. *)
Example csv_of_empty_first_mapping :
  format_output (fun _ _ _ => "") (fun _ => "v")
    (VList [VDict []; VInt 1]) "csv" true =
  Text (String "010"%char (String "010"%char EmptyString)).
Proof. reflexivity. Qed.

Section MainFacts.

Variable re_search : string -> string -> bool -> option bool.
Variable json_dumps : Value -> option nat -> bool -> string.
Variable py_str : Value -> string.
Variable json_loads : string -> json_outcome.
Variable exn_text : exn -> string.
Variable attribute_error_text : string.
Variable stdin_read : read_outcome.
Variable open_read : string -> read_outcome.









End MainFacts.

(** ** Composition of filters *)

Module ComposeFacts.

Section Compose.

Variable re_search : string -> string -> bool -> option bool.

(** The two ways [filter_data] treats an expression: it has no operator
    and nothing is filtered, or it has one and the data is tested. *)
Definition tests_with (filter_expr operator key value : string) : Prop :=
  forall v,
    filter_data re_search v filter_expr =
    match v with
    | VList l =>
        kept <- filterM (keeps re_search key operator
                           (parse_filter_value value)) l ;;
        Ok (VList kept)
    | VDict d =>
        b <- keeps re_search key operator (parse_filter_value value) v ;;
        Ok (if b then v else VNone)
    | _ => Ok VNone
    end.

Lemma filter_data_cases (filter_expr : string) :
  (forall v, filter_data re_search v filter_expr = Ok v) \/
  exists operator key value, tests_with filter_expr operator key value.
Proof.
  unfold tests_with, filter_data.
  destruct filter_expr as [|c e]; [now left|].
  destruct (find_operator operators (String c e)) as [[[op key] value]|];
    [|now left].
  right. exists op, key, value. intros v.
  destruct v; try reflexivity.
  cbn [keeps]. destruct (Dict.lookup key d); reflexivity.
Qed.

Lemma filter_comm {A : Type} (p q : A -> bool) (l : list A) :
  filter p (filter q l) = filter q (filter p l).
Proof.
  induction l as [|x l IH]; [reflexivity|].
  cbn [filter]. destruct (q x) eqn:Hq, (p x) eqn:Hp; cbn [filter];
    rewrite ?Hq, ?Hp, IH; reflexivity.
Qed.

Lemma tested_none (filter_expr operator key value : string) :
  tests_with filter_expr operator key value ->
  filter_data re_search VNone filter_expr = Ok VNone.
Proof. intros H. now rewrite H. Qed.

End Compose.

End ComposeFacts.

(** X16: Two filters can be applied in either order: when both orders go
    through without an exception they give the same result, whatever the
    data and the expressions. *)
Theorem filters_commute
  (re_search : string -> string -> bool -> option bool)
  (v : Value) (e1 e2 : string) (a b : Value) :
  (r <- filter_data re_search v e1 ;; filter_data re_search r e2) = Ok a ->
  (r <- filter_data re_search v e2 ;; filter_data re_search r e1) = Ok b ->
  a = b.
Proof.
  destruct (ComposeFacts.filter_data_cases re_search e1)
    as [N1|(op1 & k1 & v1 & T1)];
    destruct (ComposeFacts.filter_data_cases re_search e2)
      as [N2|(op2 & k2 & v2 & T2)].
  - rewrite !N1. cbn [bind]. rewrite !N2. cbn [bind]. rewrite N1. congruence.
  - rewrite N1. cbn [bind]. intros Ha.
    rewrite Ha. cbn [bind]. rewrite N1. congruence.
  - rewrite N2. cbn [bind]. intros Ha Hb.
    rewrite Hb in Ha. cbn [bind] in Ha. rewrite N2 in Ha. congruence.
  - pose proof (ComposeFacts.tested_none re_search _ _ _ _ T1) as Z1.
    pose proof (ComposeFacts.tested_none re_search _ _ _ _ T2) as Z2.
    rewrite (T1 v), (T2 v).
    destruct v; cbn [bind]; rewrite ?Z1, ?Z2; try congruence.
    + destruct (filterM (keeps re_search k1 op1 (parse_filter_value v1)) l)
        as [kept1|] eqn:E1; cbn [bind]; [|discriminate].
      destruct (filterM (keeps re_search k2 op2 (parse_filter_value v2)) l)
        as [kept2|] eqn:E2; cbn [bind]; [|intros _; discriminate].
      rewrite (T2 (VList kept1)), (T1 (VList kept2)).
      destruct (filterM (keeps re_search k2 op2 (parse_filter_value v2)) kept1)
        as [kept12|] eqn:E12; cbn [bind]; [|discriminate].
      destruct (filterM (keeps re_search k1 op1 (parse_filter_value v1)) kept2)
        as [kept21|] eqn:E21; cbn [bind]; [|intros _; discriminate].
      intros [= <-] [= <-]. f_equal.
      apply filterM_filter in E1, E2, E12, E21. subst.
      apply ComposeFacts.filter_comm.
    + destruct (keeps re_search k1 op1 (parse_filter_value v1) (VDict d))
        as [[|]|] eqn:E1; cbn [bind]; [| |discriminate];
        destruct (keeps re_search k2 op2 (parse_filter_value v2) (VDict d))
          as [[|]|] eqn:E2; cbn [bind];
        rewrite ?(T1 (VDict d)), ?(T2 (VDict d)), ?E1, ?E2, ?Z1, ?Z2;
        cbn [bind]; congruence.
Qed.

Lemma filters_commute_witness :
  VList [VDict [("age", VInt 30); ("name", VStr "Ann")]] =
  VList [VDict [("age", VInt 30); ("name", VStr "Ann")]].
Proof.
  apply (filters_commute literal_search
           (VList [VDict [("age", VInt 30); ("name", VStr "Ann")];
                   VDict [("age", VInt 20); ("name", VStr "Abe")];
                   VDict [("age", VInt 40); ("name", VStr "Bob")]])
           "age > 25" "name ~ A"); reflexivity.
Defined.

(** ** Boolean and null words *)

Lemma lower_head (s w : string) (a : ascii) :
  Str.lower s = String a w ->
  exists c s', s = String c s' /\ Str.lower_char c = a.
Proof.
  destruct s as [|c s']; [discriminate|].
  cbn [Str.lower]. intros [= Hc _]. eauto.
Qed.

Lemma lower_char_not_quote (c : ascii) :
  Ascii.eqb (Str.lower_char c) dquote = false ->
  Ascii.eqb (Str.lower_char c) squote = false ->
  Ascii.eqb c dquote = false /\ Ascii.eqb c squote = false.
Proof.
  destruct c as [[] [] [] [] [] [] [] []]; vm_compute; intros H1 H2;
    split; first [reflexivity | exact H1 | exact H2].
Qed.

(** X8: The boolean words [true] and [false] and the null words [null] and
    [none] are recognised by both scalar parsers in any mix of upper and
    lower case. *)
Theorem words_ignore_case (value w : string) :
  In w ["true"; "false"; "null"; "none"] ->
  Str.lower (Str.strip value) = w ->
  _parse_value value = word_value w /\
  parse_filter_value value = word_value w.
Proof.
  intros Hw Hl.
  assert (Hq : is_quoted (Str.strip value) = false).
  { cbn [In] in Hw.
    assert (Hhead : exists a t, w = String a t /\
                      Ascii.eqb a dquote = false /\
                      Ascii.eqb a squote = false).
    { repeat (destruct Hw as [<-|Hw]; [do 2 eexists; repeat split|]).
      destruct Hw. }
    destruct Hhead as (a & t & -> & Hd & Hs).
    destruct (lower_head _ _ _ Hl) as (c & s' & E & <-).
    destruct (lower_char_not_quote c Hd Hs) as [Hcd Hcs].
    rewrite E. unfold is_quoted, wrapped_in. cbn [Str.startswith].
    rewrite (Ascii.eqb_sym dquote), (Ascii.eqb_sym squote), Hcd, Hcs.
    reflexivity. }
  unfold _parse_value, parse_filter_value. rewrite Hq, Hl.
  cbn [In] in Hw.
  repeat (destruct Hw as [<-|Hw]; [split; reflexivity|]). destruct Hw.
Qed.

Lemma words_ignore_case_witness :
  _parse_value " TRUE " = word_value "true" /\
  parse_filter_value " TRUE " = word_value "true".
Proof.
  apply (words_ignore_case " TRUE " "true"); [cbn; tauto | reflexivity].
Defined.

(** ** The result of a YAML block *)

Module YAMLBlock.
Import YAMLParser.

Lemma skipn_nth_some {A : Type} (l : list A) (n : nat) (x : A) :
  nth_error l n = Some x -> skipn n l = x :: skipn (S n) l.
Proof.
  revert l. induction n as [|n IH]; intros [|y l] H; try discriminate H.
  - now injection H as ->.
  - apply (IH l H).
Qed.

Lemma skipn_nth_none {A : Type} (l : list A) (n : nat) :
  nth_error l n = None -> skipn n l = [].
Proof.
  intros H. apply skipn_all2. now apply nth_error_None.
Qed.

(** What the loop does from a state without a pending key: the items of
    the lines still to be read are appended to [current_list], their
    entries are added to [result], and [in_list] is set as soon as one of
    them is an item. *)
Definition reads_block (lines : list string) (start_indent : nat)
  (st st' : locals) : Prop :=
  let rest := skipn (i st) lines in
  current_list st' = current_list st ++ block_items start_indent rest /\
  result st' = block_entries start_indent rest (result st) /\
  in_list st' =
    in_list st || existsb is_item (block_lines start_indent rest).

Lemma reads_block_stop (lines : list string) (start_indent : nat)
  (st : locals) :
  block_lines start_indent (skipn (i st) lines) = [] ->
  reads_block lines start_indent st st.
Proof.
  intros H. unfold reads_block, block_items, block_entries. rewrite H.
  cbn. now rewrite app_nil_r, orb_false_r.
Qed.

Lemma parse_loop_block (fuel : nat) :
  forall lines start_indent st st',
    parse_loop fuel lines start_indent st = Some st' ->
    current_key st = None ->
    reads_block lines start_indent st st'.
Proof.
  induction fuel as [|fuel IH]; intros lines start_indent st st' H Hkey;
    [discriminate|].
  cbn [parse_loop] in H.
  destruct (nth_error lines (i st)) as [line|] eqn:Hn.
  2:{ injection H as <-. apply reads_block_stop.
      now rewrite (skipn_nth_none _ _ Hn). }
  pose proof (skipn_nth_some _ _ _ Hn) as Hrest.
  assert (Hpass : forall st2,
             parse_loop fuel lines start_indent st2 = Some st' ->
             current_key st2 = None ->
             i st2 = S (i st) ->
             current_list st2 = current_list st ->
             result st2 = result st ->
             in_list st2 = in_list st ->
             block_lines start_indent (line :: skipn (S (i st)) lines) =
             block_lines start_indent (skipn (S (i st)) lines) ->
             reads_block lines start_indent st st').
  { intros st2 H2 Hk Hi Hc Hr Hin Hb.
    pose proof (IH _ _ _ _ H2 Hk) as (Q1 & Q2 & Q3).
    unfold reads_block, block_items, block_entries in *.
    rewrite Hrest, Hb. rewrite Hi, Hc in Q1. rewrite Hi, Hr in Q2.
    rewrite Hi, Hin in Q3. auto. }
  destruct (is_skipped line) eqn:Hskip.
  { apply (Hpass _ H Hkey); try reflexivity.
    cbn [block_lines]. now rewrite Hskip. }
  destruct (indent_of line <? start_indent) eqn:Hlt.
  { injection H as <-. apply reads_block_stop.
    rewrite Hrest. cbn [block_lines]. now rewrite Hskip, Hlt. }
  destruct (start_indent <? indent_of line) eqn:Hgt.
  { unfold pending_key in H. rewrite Hkey in H.
    apply (Hpass _ H Hkey); try reflexivity.
    cbn [block_lines]. now rewrite Hskip, Hlt, Hgt. }
  assert (Hb : block_lines start_indent (line :: skipn (S (i st)) lines) =
               Str.strip line
                 :: block_lines start_indent (skipn (S (i st)) lines))
    by (cbn [block_lines]; now rewrite Hskip, Hlt, Hgt).
  destruct (Str.startswith "- " (Str.strip line)) eqn:Hitem.
  - pose proof (IH _ _ _ _ H Hkey) as (Q1 & Q2 & Q3).
    cbn [i current_list result in_list] in Q1, Q2, Q3.
    unfold reads_block, block_items, block_entries in *.
    rewrite Hrest, Hb. cbn [filter existsb].
    unfold not_item, is_item. rewrite Hitem. cbn [negb map].
    repeat split.
    + rewrite Q1, <- app_assoc. reflexivity.
    + exact Q2.
    + rewrite Q3. cbn [orb]. now rewrite orb_true_r.
  - assert (Hentry : forall st2,
               parse_loop fuel lines start_indent st2 = Some st' ->
               current_key st2 = None ->
               i st2 = S (i st) ->
               current_list st2 = current_list st ->
               result st2 = add_entry (result st) (Str.strip line) ->
               in_list st2 = in_list st ->
               reads_block lines start_indent st st').
    { intros st2 H2 Hk Hi Hc Hr Hin.
      pose proof (IH _ _ _ _ H2 Hk) as (Q1 & Q2 & Q3).
      unfold reads_block, block_items, block_entries in *.
      rewrite Hrest, Hb. cbn [filter existsb].
      unfold not_item, is_item. rewrite Hitem. cbn [negb fold_left orb].
      rewrite Hi, Hc in Q1. rewrite Hi, Hr in Q2. rewrite Hi, Hin in Q3.
      auto. }
    destruct (Str.split_once ": " (Str.strip line)) as [[key value]|] eqn:E.
    + destruct (Str.strip value) eqn:Ev.
      * now apply YAMLShape.inline_value_present in E.
      * apply (Hentry _ H Hkey); try reflexivity.
        cbn [result]. unfold add_entry. now rewrite E, Ev.
    + apply (Hentry _ H Hkey); try reflexivity.
      cbn [result]. unfold add_entry. now rewrite E.
Qed.

Lemma no_item_lines (l : list string) :
  existsb is_item l = false -> filter is_item l = [].
Proof.
  induction l as [|x l IH]; [reflexivity|].
  cbn [existsb filter]. destruct (is_item x); [discriminate | exact IH].
Qed.

Lemma some_item_lines (l : list string) :
  existsb is_item l = true -> filter is_item l <> [].
Proof.
  induction l as [|x l IH]; [discriminate|].
  cbn [existsb filter]. destruct (is_item x); [discriminate | exact IH].
Qed.

End YAMLBlock.

(** C9: [_parse_lines] returns on every block: nothing in it can raise and
    the loop ends.  When the block has a sequence item, wherever it stands
    among the lines of the block, the result is the list of the items of
    the block, in order, and the key-value lines of the block change
    nothing to it.  When it has none, the result is the mapping of its
    entries, and [None], not an empty mapping, when there is no entry.
    Two blocks are run to the end: one that mixes items and key-value
    lines, one that holds a comment and a blank line. *)
Theorem yaml_block_result (lines : list string) (start_indent : nat) :
  (exists v n,
      YAMLParser._parse_lines lines start_indent = Some (v, n) /\
      n <= List.length lines /\
      match block_items start_indent lines with
      | [] =>
          v = match block_entries start_indent lines [] with
              | [] => VNone
              | d => VDict d
              end
      | items => v = VList items
      end) /\
  YAMLParser._parse_lines ["k: v"; "- a"; "x: 1"; "- b: 2"; "- 3.5"] 0 =
    Some (VList [VStr "a"; VDict [("b", VInt 2)];
                 VFloat (S754_finite false 7881299347898368 (-51))], 5) /\
  YAMLParser._parse_lines ["# only a comment"; ""] 0 = Some (VNone, 2).
Proof.
  split; [|split; vm_compute; reflexivity].
  destruct (YAMLFacts.parse_loop_total lines start_indent) as (st & E & Hi).
  pose proof (YAMLBlock.parse_loop_block _ _ _ _ _ E eq_refl)
    as (Q1 & Q2 & Q3).
  cbn [YAMLParser.i YAMLParser.current_list YAMLParser.result
       YAMLParser.in_list YAMLParser.initial skipn app orb] in Q1, Q2, Q3.
  exists (fst (YAMLParser.finish st)), (snd (YAMLParser.finish st)).
  unfold YAMLParser._parse_lines. rewrite E. cbn [option_map].
  rewrite <- surjective_pairing, YAMLFacts.snd_finish.
  repeat split; [exact Hi|].
  unfold YAMLParser.finish, block_items in *. rewrite Q3.
  destruct (existsb is_item (block_lines start_indent lines)) eqn:Hex.
  - cbn [fst]. rewrite Q1.
    pose proof (YAMLBlock.some_item_lines _ Hex) as Hne.
    destruct (filter is_item (block_lines start_indent lines));
      [now elim Hne | reflexivity].
  - cbn [fst]. rewrite (YAMLBlock.no_item_lines _ Hex). cbn [map].
    rewrite Q2. reflexivity.
Qed.
